(** * eslint-config-upleveled: the installer script, embedded and verified

    The installer script reads the project's [package.json], adds the
    config's peer dependencies to [devDependencies], pins Yarn resolutions,
    runs the package manager, copies template files, updates [.gitignore]
    and removes the default Next.js ESLint config.

    JavaScript strings are modelled by [string]: a character stands for one
    UTF-16 code unit, so the model covers the strings whose code units are
    below 256, and [String.compare] is the code unit order that [<] and
    [Array.prototype.sort] use on strings.  A JavaScript object used as a
    dictionary is the list of its own properties in enumeration order.  The
    dependency maps of a manifest map names to strings, as in a
    [package.json] that npm accepts.  The project directory holds regular
    files; what else can make a write or a removal fail is left to the
    [writable] test of the environment. *)

From Stdlib Require Import String Ascii NArith List Sorted Permutation Lia.
From stdpp Require Import gmap strings list sorting.

(** ** JavaScript objects as ordered property lists *)

Module JS.

(** An object whose property values have type [V]; the list is the order in
    which [Object.entries], spread and [JSON.stringify] visit the
    properties: array indices first, ascending, then the other string keys
    in the order of their creation. *)
Abbreviation obj V := (list (string * V)) (only parsing).

Definition digit_val (c : ascii) : option N :=
  let n := N_of_ascii c in
  if ((48 <=? n) && (n <=? 57))%N then Some (n - 48)%N else None.

Fixpoint digits_val (acc : N) (s : string) : option N :=
  match s with
  | EmptyString => Some acc
  | String c r =>
      match digit_val c with
      | Some d => digits_val (10 * acc + d)%N r
      | None => None
      end
  end.

(** [array_index k] is the number [n] when [k] is an array index: the
    canonical decimal spelling of an integer between 0 and 2^32 - 2. *)
Definition array_index (k : string) : option N :=
  match k with
  | EmptyString => None
  | String c r =>
      if Ascii.eqb c "0"%char
      then match r with EmptyString => Some 0%N | _ => None end
      else match digits_val 0 k with
           | Some n => if (n <? 4294967295)%N then Some n else None
           | None => None
           end
  end.

Definition is_index (k : string) : bool :=
  match array_index k with Some _ => true | None => false end.

Section Objects.
Context {V : Type}.

(** [o[k]]: [None] is JavaScript's [undefined] for a missing property. *)
Fixpoint obj_get (k : string) (o : obj V) : option V :=
  match o with
  | [] => None
  | (k', v) :: r => if String.eqb k k' then Some v else obj_get k r
  end.

(** [k in o], for the keys the script tests (none is inherited from
    [Object.prototype]). *)
Definition obj_has (k : string) (o : obj V) : bool :=
  match obj_get k o with Some _ => true | None => false end.

Definition keys (o : obj V) : list string := map fst o.

(** Assignment to an existing property keeps its place. *)
Fixpoint obj_update (k : string) (v : V) (o : obj V) : obj V :=
  match o with
  | [] => []
  | (k', v') :: r =>
      if String.eqb k k' then (k', v) :: r else (k', v') :: obj_update k v r
  end.

(** A new array index goes among the indices, in ascending order. *)
Fixpoint obj_insert_index (n : N) (k : string) (v : V) (o : obj V) : obj V :=
  match o with
  | [] => [(k, v)]
  | (k', v') :: r =>
      match array_index k' with
      | Some n' =>
          if (n <? n')%N then (k, v) :: o
          else (k', v') :: obj_insert_index n k v r
      | None => (k, v) :: o
      end
  end.

(** [o[k] = v] *)
Definition obj_set (k : string) (v : V) (o : obj V) : obj V :=
  if obj_has k o then obj_update k v o
  else match array_index k with
       | Some n => obj_insert_index n k v o
       | None => o ++ [(k, v)]
       end.

(** [{ ...dst, ...src }] once [dst] has been copied: the properties of
    [src] are defined on the target one by one, in their order. *)
Definition spread (src : obj V) (dst : obj V) : obj V :=
  fold_left (fun acc e => obj_set (fst e) (snd e) acc) src dst.

Definition Object_entries (o : obj V) : list (string * V) := o.

Definition Object_fromEntries (es : list (string * V)) : obj V :=
  spread es [].

End Objects.

(** [k1] may come before [k2] among the own properties of an object. *)
Definition prop_before (k1 k2 : string) : Prop :=
  match array_index k1, array_index k2 with
  | Some a, Some b => (a < b)%N
  | Some _, None => True
  | None, Some _ => False
  | None, None => True
  end.

(** A list that is the property list of some object: no key twice, the
    array indices first and ascending. *)
Definition wf_obj {V} (o : obj V) : Prop :=
  NoDup (keys o) /\ StronglySorted prop_before (keys o).

(** The entries whose key is, or is not, an array index. *)
Definition index_entry {V} (e : string * V) : Prop := is_index (fst e) = true.
Definition nonindex_entry {V} (e : string * V) : Prop := is_index (fst e) = false.

#[global] Instance index_entry_dec {V} (e : string * V) : Decision (index_entry e).
Proof. unfold index_entry. apply _. Defined.
#[global] Instance nonindex_entry_dec {V} (e : string * V) :
  Decision (nonindex_entry e).
Proof. unfold nonindex_entry. apply _. Defined.

(** The order of two entries that are both array indices. *)
Definition index_lt {V} (e1 e2 : string * V) : Prop :=
  match array_index (fst e1), array_index (fst e2) with
  | Some a, Some b => (a < b)%N
  | _, _ => False
  end.

(** *** [Array.prototype.sort()] without a comparator

    The elements are compared as strings, by code units; an entry
    [[key, value]] converts to the string [key + "," + value].  The sort is
    stable, so it is the insertion sort that puts an element before the
    first one that is not smaller. *)
Definition entry_string (e : string * string) : string :=
  String.append (fst e) (String.append "," (snd e)).

Fixpoint sort_insert (e : string * string) (l : list (string * string))
  : list (string * string) :=
  match l with
  | [] => [e]
  | e' :: r =>
      if String.ltb (entry_string e') (entry_string e)
      then e' :: sort_insert e r
      else e :: l
  end.

Fixpoint Array_sort (l : list (string * string)) : list (string * string) :=
  match l with
  | [] => []
  | e :: r => sort_insert e (Array_sort r)
  end.

(** The order that [sort()] leaves the entries in. *)
Definition entry_le (e1 e2 : string * string) : Prop :=
  String.ltb (entry_string e2) (entry_string e1) = false.

End JS.

Import JS.

(** ** The manifest and the dependency set resolver *)

(** [package.json] as the script uses it.  The three dependency maps are
    optional; [rest] stands for the other members, which the script never
    touches.  A value of [resolutions] can be [undefined] ([None]) once the
    script has run: the pin builder stores [devDependencies[name]] whether
    or not the name is there. *)
Record manifest : Type := Manifest {
  dependencies : option (obj string);
  devDependencies : option (obj string);
  resolutions : option (obj (option string));
  rest : obj string
}.

(** [x || {}] and [...x] on a map that may be missing. *)
Definition or_empty {V} (o : option (obj V)) : obj V :=
  match o with Some x => x | None => [] end.

(** The ecosystem tests on [projectDependencies]. *)
Definition usesStylelint (projectDependencies : obj string) : bool :=
  obj_has "react-scripts" projectDependencies || obj_has "next" projectDependencies.

Definition usesSafeql (platform : string) (projectDependencies : obj string) : bool :=
  (obj_has "next" projectDependencies || obj_has "postgres" projectDependencies)
  && negb (String.eqb platform "win32").

Definition safeqlPackages : list string :=
  ["@ts-safeql/eslint-plugin"; "libpg-query"].

Definition stylelintPackages : list string :=
  ["postcss-styled-syntax"; "stylelint"; "stylelint-config-css-modules";
   "stylelint-config-recommended"; "stylelint-config-recommended-scss"].

(** [table[name] = 'latest'] for each name, in order. *)
Definition set_latest (names : list string) (table : obj string) : obj string :=
  fold_left (fun t name => obj_set name "latest" t) names table.

(** [newDevDependenciesToInstall] after the two conditional blocks;
    [peerDependencies] is [eslintConfigPackageJson.peerDependencies], the
    table of the config's own [package.json].  The script adds to that very
    object; nothing reads the table again before the process ends, so the
    value after the blocks is all that matters. *)
Definition newDevDependenciesToInstall (peerDependencies : obj string)
    (platform : string) (projectDependencies : obj string) : obj string :=
  let t := peerDependencies in
  let t := if usesSafeql platform projectDependencies
           then set_latest safeqlPackages t else t in
  if usesStylelint projectDependencies
  then set_latest stylelintPackages t else t.

(** The object literal [{ ...devDependencies, ...newDevDependenciesToInstall }]. *)
Definition mergedEntries (peerDependencies : obj string) (platform : string)
    (m : manifest) : obj string :=
  spread
    (newDevDependenciesToInstall peerDependencies platform
       (or_empty (dependencies m)))
    (spread (or_empty (devDependencies m)) []).

(** The new value of [projectPackageJson.devDependencies]. *)
Definition mergeDevDependencies (peerDependencies : obj string)
    (platform : string) (m : manifest) : obj string :=
  Object_fromEntries
    (Array_sort (Object_entries (mergedEntries peerDependencies platform m))).

(** Strict ascending order of the keys, by code units. *)
Definition keys_ascending (o : obj string) : Prop :=
  StronglySorted (fun k1 k2 => String.ltb k1 k2 = true) (keys o).

(** The keys on which sorting the entries is sorting the keys: every
    character comes after the comma, and the key is not an array index.
    The names that npm accepts today are of this kind, unless they are
    all digits. *)
Fixpoint after_comma (k : string) : bool :=
  match k with
  | EmptyString => true
  | String c r => (44 <? N_of_ascii c)%N && after_comma r
  end.

Definition plain_key (k : string) : bool :=
  negb (is_index k) && after_comma k.

(** ** The resolution pinning builder *)

Definition pinnedPackages : list string :=
  ["@typescript-eslint/eslint-plugin"; "@typescript-eslint/parser";
   "eslint-plugin-import"; "eslint-plugin-jest"; "eslint-plugin-jsx-a11y";
   "eslint-plugin-react"; "eslint-plugin-react-hooks"].

(** The [reduce] over the package names, from [{}]. *)
Definition pinsOf (dev : obj string) : obj (option string) :=
  fold_left
    (fun resolutions packageName =>
       obj_set packageName (obj_get packageName dev) (spread resolutions []))
    pinnedPackages [].

(** The object literal assigned to [projectPackageJson.resolutions]. *)
Definition newResolutions (existing : option (obj (option string)))
    (dev : obj string) : obj (option string) :=
  obj_set "@typescript-eslint/utils" (obj_get "@typescript-eslint/parser" dev)
    (spread (pinsOf dev) (spread (or_empty existing) [])).

(** The keys that the literal sets, and their entries: the seven names of
    the [reduce], then [@typescript-eslint/utils] with the version of the
    parser. *)
Definition pinKeys : list string :=
  pinnedPackages ++ ["@typescript-eslint/utils"].

Definition pinSource (key : string) : string :=
  if String.eqb key "@typescript-eslint/utils"
  then "@typescript-eslint/parser" else key.

Definition pinEntries (dev : obj string) : obj (option string) :=
  pinsOf dev ++
  [("@typescript-eslint/utils", obj_get "@typescript-eslint/parser" dev)].

(** The two assignments to [projectPackageJson]. *)
Definition updateManifest (peerDependencies : obj string) (platform : string)
    (projectUsesYarn : bool) (m : manifest) : manifest :=
  let dev := mergeDevDependencies peerDependencies platform m in
  {| dependencies := dependencies m;
     devDependencies := Some dev;
     resolutions :=
       if projectUsesYarn then Some (newResolutions (resolutions m) dev)
       else resolutions m;
     rest := rest m |}.

(** [JSON.stringify] leaves out the properties whose value is [undefined]. *)
Definition dropUndefined (o : obj (option string)) : obj (option string) :=
  filter (fun e => is_Some (snd e)) o.

(** The manifest that a reader of the written file gets back. *)
Definition written (m : manifest) : manifest :=
  {| dependencies := dependencies m;
     devDependencies := devDependencies m;
     resolutions := option_map dropUndefined (resolutions m);
     rest := rest m |}.

(** ** Text helpers of the later stages *)

Definition LF : ascii := "010"%char.
Definition newline : string := String LF EmptyString.

(** [s.split('\n')] *)
Fixpoint split_LF (s : string) : list string :=
  match s with
  | EmptyString => [EmptyString]
  | String c r =>
      if Ascii.eqb c LF then EmptyString :: split_LF r
      else match split_LF r with
           | l :: ls => String c l :: ls
           | [] => [String c EmptyString]
           end
  end.

(** [lines.join('\n')] *)
Fixpoint join_LF (lines : list string) : string :=
  match lines with
  | [] => EmptyString
  | x :: r =>
      match r with
      | [] => x
      | _ :: _ => String.append x (String LF (join_LF r))
      end
  end.

(** Whether a line feed occurs in [s], and whether [s] ends with one. *)
Fixpoint has_LF (s : string) : bool :=
  match s with
  | EmptyString => false
  | String c r => Ascii.eqb c LF || has_LF r
  end.

Fixpoint ends_with_LF (s : string) : bool :=
  match s with
  | EmptyString => false
  | String c r =>
      match r with
      | EmptyString => Ascii.eqb c LF
      | String _ _ => ends_with_LF r
      end
  end.

(** [s] ends with a line feed, and with one only. *)
Definition one_trailing_LF (s : string) : Prop :=
  exists t, s = String.append t newline /\ ends_with_LF t = false.

(** [lines.includes(x)] *)
Definition includes (x : string) (lines : list string) : bool :=
  existsb (String.eqb x) lines.

(** The white space that [String.prototype.trim] removes, among the code
    units below 256: TAB, LF, VT, FF, CR, space and no-break space. *)
Definition is_whitespace (c : ascii) : bool :=
  let n := N_of_ascii c in
  (((9 <=? n) && (n <=? 13)) || (n =? 32) || (n =? 160))%N.

Fixpoint trimStart (s : string) : string :=
  match s with
  | EmptyString => EmptyString
  | String c r => if is_whitespace c then trimStart r else s
  end.

Fixpoint trimEnd (s : string) : string :=
  match s with
  | EmptyString => EmptyString
  | String c r =>
      match trimEnd r with
      | EmptyString => if is_whitespace c then EmptyString else String c EmptyString
      | String _ _ as kept => String c kept
      end
  end.

Definition trim (s : string) : string := trimEnd (trimStart s).

Fixpoint all_whitespace (s : string) : bool :=
  match s with
  | EmptyString => true
  | String c r => is_whitespace c && all_whitespace r
  end.

Definition quote : string := String "034"%char EmptyString.

(** The default Next.js ESLint config, as the template literal spells it. *)
Definition nextDefaultConfig : string :=
  String.concat EmptyString
    ["{"; newline; "  "; quote; "extends"; quote; ": "; quote;
     "next/core-web-vitals"; quote; newline; "}"].

(** The default config with white space before and after it. *)
Definition paddedDefaultConfig (text : string) : Prop :=
  exists before after,
    text = String.append before (String.append nextDefaultConfig after)
    /\ all_whitespace before = true /\ all_whitespace after = true.

(** ** The project directory and the stages after the manifest *)

(** What the script can see of its surroundings. *)
Record environment : Type := Environment {
  (** [eslintConfigPackageJson.peerDependencies] *)
  peerDependencies : obj string;
  (** [process.platform] *)
  platform : string;
  (** whether [readdirSync(templatePath)] succeeds; the call is outside any
      [try], so its exception ends the script *)
  templatesListed : bool;
  (** what [readdirSync(templatePath)] lists: each name with the text of the
      file, or [None] when reading it throws *)
  templates : list (string * option string);
  (** whether the process may write or remove the file of this name in the
      project directory *)
  writable : string -> bool;
  (** the package manager: the command, the manifest it finds and the other
      files of the directory; [None] is a non-zero exit.  It gives back the
      other files: it is taken not to rewrite [package.json] *)
  runInstall : string -> manifest -> gmap string string ->
               option (gmap string string)
}.

(** The project directory: the parsed [package.json] ([None] when it is
    missing or does not parse) and the text of the other files. *)
Record project : Type := Project {
  packageJson : option manifest;
  files : gmap string string
}.

Inductive failure : Type :=
| ManifestUnreadable
| WriteFailed (path : string)
| InstallFailed
| TemplatesUnreadable.

(** The script ends with the directory [Ok d], or an exception escapes. *)
Inductive outcome (A : Type) : Type :=
| Ok (a : A)
| Throw (e : failure).
Arguments Ok {A} a.
Arguments Throw {A} e.

#[global] Instance outcome_bind : MBind outcome :=
  fun A B f x => match x with Ok a => f a | Throw e => Throw e end.

(** [existsSync(join(process.cwd(), name))]; [package.json] is there, the
    script has read it. *)
Definition existsSync (fs : gmap string string) (name : string) : bool :=
  String.eqb name "package.json" || bool_decide (is_Some (fs !! name)).

(** One turn of the template loop. *)
Definition writeConfigFile (E : environment) (projectDependencies : obj string)
    (fs : gmap string string) (t : string * option string)
  : gmap string string :=
  let templateFileName := fst t in
  if String.eqb templateFileName "stylelint.config.cjs"
     && negb (usesStylelint projectDependencies)
  then fs
  else if existsSync fs templateFileName then fs
  else match snd t with
       | Some text =>
           if writable E templateFileName
           then <[templateFileName := text]> fs
           else fs
       | None => fs
       end.

Definition writeConfigFiles (E : environment) (projectDependencies : obj string)
    (fs : gmap string string) : gmap string string :=
  fold_left (writeConfigFile E projectDependencies) (templates E) fs.

Definition templateFileNames (E : environment) : list string :=
  map fst (templates E).

(** The text of the first readable template of this name. *)
Fixpoint firstText (name : string) (ts : list (string * option string))
  : option string :=
  match ts with
  | [] => None
  | t :: r =>
      if String.eqb (fst t) name
      then match snd t with Some text => Some text | None => firstText name r end
      else firstText name r
  end.

(** What the template loop puts at a name where there is no file yet. *)
Definition newConfigFile (E : environment) (projectDependencies : obj string)
    (name : string) : option string :=
  if (String.eqb name "stylelint.config.cjs"
      && negb (usesStylelint projectDependencies))
     || String.eqb name "package.json"
     || negb (writable E name)
  then None
  else firstText name (templates E).

Definition requiredIgnorePaths : list string := [".eslintcache"; "*.tsbuildinfo"].

(** The loop that pushes the missing patterns. *)
Definition addIgnorePaths (gitignoreContentLines : list string) : list string :=
  fold_left
    (fun lines ignorePath =>
       if includes ignorePath lines then lines else lines ++ [ignorePath])
    requiredIgnorePaths gitignoreContentLines.

(** The text given to [writeFileSync] for the lines at hand. *)
Definition gitignoreText (gitignoreContentLines : list string) : string :=
  String.append (join_LF gitignoreContentLines)
    (match last gitignoreContentLines with
     | Some EmptyString => EmptyString
     | _ => newline
     end).

(** From the old content of [.gitignore], if any, to the new one. *)
Definition newGitignore (old : option string) : string :=
  let gitignoreContentLines :=
    match old with Some text => split_LF text | None => [] end in
  gitignoreText (addIgnorePaths gitignoreContentLines).

Definition updateGitignore (E : environment) (fs : gmap string string)
  : outcome (gmap string string) :=
  if writable E ".gitignore"
  then Ok (<[".gitignore" := newGitignore (fs !! ".gitignore")]> fs)
  else Throw (WriteFailed ".gitignore").

(** The last [try]: a failing read or removal is swallowed. *)
Definition pruneLegacyConfig (E : environment) (fs : gmap string string)
  : gmap string string :=
  match fs !! ".eslintrc.json" with
  | Some text =>
      if String.eqb (trim text) nextDefaultConfig
      then if writable E ".eslintrc.json"
           then delete ".eslintrc.json" fs else fs
      else fs
  | None => fs
  end.

(** The whole script. *)
Definition run (E : environment) (p : project) : outcome project :=
  match packageJson p with
  | None => Throw ManifestUnreadable
  | Some m =>
      let projectDependencies := or_empty (dependencies m) in
      let projectUsesYarn := negb (existsSync (files p) "pnpm-lock.yaml") in
      let m' := written (updateManifest (peerDependencies E) (platform E)
                           projectUsesYarn m) in
      if negb (writable E "package.json")
      then Throw (WriteFailed "package.json")
      else
        fs1 ← match runInstall E
                       (String.append
                          (if negb projectUsesYarn then "pnpm" else "yarn")
                          " install")
                       m' (files p) with
               | Some fs => Ok fs
               | None => Throw InstallFailed
               end;
        if negb (templatesListed E)
        then Throw TemplatesUnreadable
        else
          let fs2 := writeConfigFiles E projectDependencies fs1 in
          fs3 ← updateGitignore E fs2;
          Ok {| packageJson := Some m'; files := pruneLegacyConfig E fs3 |}
  end.

(** ** The older script, [scripts/install.js]

    It forces three resolutions to the versions of the devDependencies,
    without their first caret, and runs Yarn. *)

(** [version.replace('^', '')]: a string pattern replaces the first
    occurrence only. *)
Fixpoint replaceCaret (version : string) : string :=
  match version with
  | EmptyString => EmptyString
  | String c r => if Ascii.eqb c "^"%char then r else String c (replaceCaret r)
  end.

Fixpoint has_caret (s : string) : bool :=
  match s with
  | EmptyString => false
  | String c r => Ascii.eqb c "^"%char || has_caret r
  end.

Definition forcedPackages : list string :=
  ["@typescript-eslint/eslint-plugin"; "@typescript-eslint/parser";
   "eslint-plugin-react"].

(** [packageJsonObj.devDependencies[name].replace('^', '')]: [None] is the
    [TypeError] of calling [replace] on [undefined]. *)
Definition forcedVersion (dev : obj string) (name : string) : option string :=
  match obj_get name dev with
  | Some version => Some (replaceCaret version)
  | None => None
  end.

(** The object literal assigned to [packageJsonObj.resolutions]; [None]
    when one of the three property values throws. *)
Definition forcedResolutions (existing : option (obj (option string)))
    (dev : obj string) : option (obj (option string)) :=
  match forcedVersion dev "@typescript-eslint/eslint-plugin" with
  | None => None
  | Some v1 =>
      match forcedVersion dev "@typescript-eslint/parser" with
      | None => None
      | Some v2 =>
          match forcedVersion dev "eslint-plugin-react" with
          | None => None
          | Some v3 =>
              Some (obj_set "eslint-plugin-react" (Some v3)
                      (obj_set "@typescript-eslint/parser" (Some v2)
                         (obj_set "@typescript-eslint/eslint-plugin" (Some v1)
                            (spread (or_empty existing) []))))
          end
      end
  end.

Inductive legacyFailure : Type :=
| LegacyManifestUnreadable
| LegacyTypeError
| LegacyWriteFailed
| LegacyInstallFailed.

(** The whole older script. *)
Definition runLegacy (E : environment) (p : project) : legacyFailure + project :=
  match packageJson p with
  | None => inl LegacyManifestUnreadable
  | Some m =>
      match devDependencies m with
      | None => inl LegacyTypeError
      | Some dev =>
          match forcedResolutions (resolutions m) dev with
          | None => inl LegacyTypeError
          | Some r =>
              let m' := written {| dependencies := dependencies m;
                                   devDependencies := devDependencies m;
                                   resolutions := Some r;
                                   rest := rest m |} in
              if negb (writable E "package.json")
              then inl LegacyWriteFailed
              else match runInstall E "yarn install" m' (files p) with
                   | Some fs => inr {| packageJson := Some m'; files := fs |}
                   | None => inl LegacyInstallFailed
                   end
          end
      end
  end.

(** ** Assumptions on the package manager

    The package manager leaves the ignore list and the files named like a
    template as they are, and does not remove [pnpm-lock.yaml]. *)
Definition installKeeps (E : environment) : Prop :=
  forall cmd m fs fs' name,
    runInstall E cmd m fs = Some fs' ->
    name = ".gitignore" \/ name ∈ templateFileNames E ->
    fs' !! name = fs !! name.

Definition installKeepsPnpmLock (E : environment) : Prop :=
  forall cmd m fs fs',
    runInstall E cmd m fs = Some fs' ->
    is_Some (fs !! "pnpm-lock.yaml") -> is_Some (fs' !! "pnpm-lock.yaml").

(** ** Sample data *)

Definition samplePeerDependencies : obj string :=
  [("@typescript-eslint/eslint-plugin", "^6.0.0");
   ("@typescript-eslint/parser", "^6.0.0");
   ("eslint", "^8.44.0");
   ("eslint-plugin-import", "^2.27.5");
   ("eslint-plugin-jest", "^27.2.2");
   ("eslint-plugin-jsx-a11y", "^6.7.1");
   ("eslint-plugin-react", "^7.32.2");
   ("eslint-plugin-react-hooks", "^4.6.0");
   ("typescript", "^5.1.6")].

Definition sampleTemplates : list (string * option string) :=
  [(".eslintrc.cjs", Some "module.exports = {};");
   ("stylelint.config.cjs", Some "module.exports = {};")].

Definition sampleEnvironment : environment :=
  {| peerDependencies := samplePeerDependencies;
     platform := "linux";
     templatesListed := true;
     templates := sampleTemplates;
     writable := fun _ => true;
     runInstall := fun _ _ fs => Some fs |}.

Definition sampleProject : project :=
  {| packageJson :=
       Some {| dependencies := Some [("next", "^13.0.0"); ("react", "^18.2.0")];
               devDependencies :=
                 Some [("prettier", "^3.0.0"); ("eslint", "^8.0.0")];
               resolutions := None;
               rest := [("name", "my-app")] |};
     files :=
       list_to_map
         [(".gitignore", "node_modules");
          (".eslintrc.json", String.append nextDefaultConfig newline)] |}.

(** An ignore list that has both patterns and ends with an empty line. *)
Definition gitignoreWithBlankEnd : string :=
  String.concat newline [".eslintcache"; "*.tsbuildinfo"; ""; ""].

(** The directory that a run leaves from [sampleProject]. *)
Definition sampleProjectAfter : project :=
  {| packageJson :=
       Some {| dependencies := Some [("next", "^13.0.0"); ("react", "^18.2.0")];
               devDependencies :=
                 Some [("@ts-safeql/eslint-plugin", "latest");
                       ("@typescript-eslint/eslint-plugin", "^6.0.0");
                       ("@typescript-eslint/parser", "^6.0.0");
                       ("eslint", "^8.44.0");
                       ("eslint-plugin-import", "^2.27.5");
                       ("eslint-plugin-jest", "^27.2.2");
                       ("eslint-plugin-jsx-a11y", "^6.7.1");
                       ("eslint-plugin-react", "^7.32.2");
                       ("eslint-plugin-react-hooks", "^4.6.0");
                       ("libpg-query", "latest");
                       ("postcss-styled-syntax", "latest");
                       ("prettier", "^3.0.0");
                       ("stylelint", "latest");
                       ("stylelint-config-css-modules", "latest");
                       ("stylelint-config-recommended", "latest");
                       ("stylelint-config-recommended-scss", "latest");
                       ("typescript", "^5.1.6")];
               resolutions :=
                 Some [("@typescript-eslint/eslint-plugin", Some "^6.0.0");
                       ("@typescript-eslint/parser", Some "^6.0.0");
                       ("eslint-plugin-import", Some "^2.27.5");
                       ("eslint-plugin-jest", Some "^27.2.2");
                       ("eslint-plugin-jsx-a11y", Some "^6.7.1");
                       ("eslint-plugin-react", Some "^7.32.2");
                       ("eslint-plugin-react-hooks", Some "^4.6.0");
                       ("@typescript-eslint/utils", Some "^6.0.0")];
               rest := [("name", "my-app")] |};
     files :=
       list_to_map
         [(".gitignore",
           String.concat newline
             ["node_modules"; ".eslintcache"; "*.tsbuildinfo"; ""]);
          (".eslintrc.cjs", "module.exports = {};");
          ("stylelint.config.cjs", "module.exports = {};")] |}.

(** * Properties *)

Example merge_next :
  mergeDevDependencies [("eslint", "^8.0.0"); ("@babel/core", "^7.0.0")] "linux"
    (Manifest (Some [("next", "^13.0.0")]) None None []) =
  [("@babel/core", "^7.0.0"); ("@ts-safeql/eslint-plugin", "latest");
   ("eslint", "^8.0.0"); ("libpg-query", "latest");
   ("postcss-styled-syntax", "latest"); ("stylelint", "latest");
   ("stylelint-config-css-modules", "latest");
   ("stylelint-config-recommended", "latest");
   ("stylelint-config-recommended-scss", "latest")].
Proof. reflexivity. Qed.

Example merge_index_keys :
  mergeDevDependencies [] "linux"
    (Manifest None (Some [("9", "x"); ("10", "y"); ("a", "1"); ("a!", "1")]) None []) =
  [("9", "x"); ("10", "y"); ("a!", "1"); ("a", "1")].
Proof. reflexivity. Qed.

Example split_examples :
  split_LF "" = [""] /\
  split_LF (String.append "a" newline) = ["a"; ""] /\
  split_LF (String.append "a" (String.append newline "b")) = ["a"; "b"].
Proof. repeat split; reflexivity. Qed.

Example gitignore_missing :
  newGitignore None =
  String.concat newline [".eslintcache"; "*.tsbuildinfo"; ""].
Proof. reflexivity. Qed.

Example trim_example :
  trim (String.append newline (String.append nextDefaultConfig " ")) = nextDefaultConfig.
Proof. reflexivity. Qed.

Example run_sample :
  match run sampleEnvironment
          (Project (Some (Manifest (Some [("next", "13.4.0")]) None None [])) ∅) with
  | Ok p => files p !! ".gitignore" = Some (newGitignore None)
            /\ files p !! "stylelint.config.cjs" = Some "module.exports = {};"
  | Throw _ => False
  end.
Proof. vm_compute. split; reflexivity. Qed.

(** ** Array indices *)

Lemma digit_val_bound c d : digit_val c = Some d -> (d < 10)%N.
Proof.
  unfold digit_val. destruct (_ && _) eqn:E; [|discriminate].
  intros [= <-]. apply andb_true_iff in E as [_ E%N.leb_le]. lia.
Qed.

Lemma digit_val_inj c1 c2 d :
  digit_val c1 = Some d -> digit_val c2 = Some d -> c1 = c2.
Proof.
  unfold digit_val.
  destruct (_ && _) eqn:E1; [|discriminate].
  destruct ((48 <=? N_of_ascii c2)%N && _) eqn:E2; [|discriminate].
  intros [= <-] [= H].
  apply andb_true_iff in E1 as [E1%N.leb_le _].
  apply andb_true_iff in E2 as [E2%N.leb_le _].
  rewrite <- (ascii_N_embedding c1), <- (ascii_N_embedding c2).
  f_equal. lia.
Qed.

(** The digits read so far are the high part of the number. *)
Lemma digits_val_acc s : forall acc,
  digits_val acc s =
  match digits_val 0 s with
  | Some v => Some (acc * 10 ^ N.of_nat (String.length s) + v)%N
  | None => None
  end.
Proof.
  induction s as [|c r IH]; intros acc; simpl.
  - f_equal. lia.
  - destruct (digit_val c) as [d|]; [|reflexivity].
    rewrite (IH (10 * acc + d)%N), (IH (10 * 0 + d)%N).
    destruct (digits_val 0 r) as [v|]; [|reflexivity].
    f_equal.
    replace (N.of_nat (S (String.length r)))
      with (N.succ (N.of_nat (String.length r))) by lia.
    rewrite N.pow_succ_r'. lia.
Qed.

Lemma digits_val_bound s : forall v,
  digits_val 0 s = Some v -> (v < 10 ^ N.of_nat (String.length s))%N.
Proof.
  induction s as [|c r IH]; intros v; simpl.
  - intros [= <-]. simpl. lia.
  - destruct (digit_val c) as [d|] eqn:Hd; [|discriminate].
    rewrite digits_val_acc.
    destruct (digits_val 0 r) as [w|]; [|discriminate].
    intros [= <-]. specialize (IH _ eq_refl).
    apply digit_val_bound in Hd.
    replace (N.of_nat (S (String.length r)))
      with (N.succ (N.of_nat (String.length r))) by lia.
    rewrite N.pow_succ_r'. nia.
Qed.

Lemma digits_val_inj s1 : forall s2 v,
  String.length s1 = String.length s2 ->
  digits_val 0 s1 = Some v -> digits_val 0 s2 = Some v -> s1 = s2.
Proof.
  induction s1 as [|c1 r1 IH]; intros [|c2 r2] v Hlen; simpl in *;
    try discriminate; [reflexivity|].
  destruct (digit_val c1) as [d1|] eqn:Hd1; [|discriminate].
  destruct (digit_val c2) as [d2|] eqn:Hd2; [|discriminate].
  rewrite (digits_val_acc r1), (digits_val_acc r2).
  destruct (digits_val 0 r1) as [v1|] eqn:H1; [|discriminate].
  destruct (digits_val 0 r2) as [v2|] eqn:H2; [|discriminate].
  injection Hlen as Hlen. rewrite <- Hlen.
  intros [= <-] [= Heq].
  pose proof (digits_val_bound _ _ H1) as B1.
  pose proof (digits_val_bound _ _ H2) as B2.
  rewrite <- Hlen in B2.
  assert (d1 = d2 /\ v1 = v2) as [-> ->].
  { apply (N.div_mod_unique (10 ^ N.of_nat (String.length r1))); lia. }
  f_equal; [eapply digit_val_inj; eassumption | ].
  apply (IH r2 v2); auto.
Qed.

Lemma digits_val_lower c r v :
  digit_val c <> Some 0%N -> digits_val 0 (String c r) = Some v ->
  (10 ^ N.of_nat (String.length r) <= v)%N.
Proof.
  simpl. destruct (digit_val c) as [d|]; [|discriminate].
  intros Hd. rewrite digits_val_acc.
  destruct (digits_val 0 r); [|discriminate].
  intros [= <-]. assert (d <> 0%N) by congruence. nia.
Qed.

Lemma digit_val_zero c : digit_val c = Some 0%N -> c = "0"%char.
Proof. intros H. eapply digit_val_inj; [eassumption|reflexivity]. Qed.

(** Two keys with the same index are the same key. *)
Lemma array_index_inj k1 k2 n :
  array_index k1 = Some n -> array_index k2 = Some n -> k1 = k2.
Proof.
  assert (Hnz : forall c r m, Ascii.eqb c "0" = false ->
            digits_val 0 (String c r) = Some m ->
            (10 ^ N.of_nat (String.length r) <= m)%N).
  { intros c r m Hc. apply digits_val_lower.
    intros Hz%digit_val_zero. subst c. discriminate. }
  destruct k1 as [|c1 r1], k2 as [|c2 r2]; try discriminate.
  unfold array_index.
  destruct (Ascii.eqb c1 "0") eqn:E1, (Ascii.eqb c2 "0") eqn:E2.
  - apply Ascii.eqb_eq in E1, E2. subst.
    destruct r1, r2; try discriminate. reflexivity.
  - destruct r1; [|discriminate]. intros [= <-].
    destruct (digits_val 0 (String c2 r2)) as [m|] eqn:Hm; [|discriminate].
    destruct (m <? _)%N; [|discriminate]. intros [= ->].
    apply Hnz in Hm; [|assumption].
    pose proof (N.pow_nonzero 10 (N.of_nat (String.length r2))). lia.
  - destruct r2; [|discriminate].
    destruct (digits_val 0 (String c1 r1)) as [m|] eqn:Hm; [|discriminate].
    destruct (m <? _)%N; [|discriminate]. intros [= ->] [= <-].
    apply Hnz in Hm; [|assumption].
    pose proof (N.pow_nonzero 10 (N.of_nat (String.length r1))). lia.
  - destruct (digits_val 0 (String c1 r1)) as [m1|] eqn:H1; [|discriminate].
    destruct (digits_val 0 (String c2 r2)) as [m2|] eqn:H2; [|discriminate].
    destruct (m1 <? _)%N; [|discriminate].
    destruct (m2 <? _)%N; [|discriminate].
    intros [= ->] [= ->].
    pose proof (Hnz _ _ _ E1 H1) as L1. pose proof (Hnz _ _ _ E2 H2) as L2.
    pose proof (digits_val_bound _ _ H1) as U1.
    pose proof (digits_val_bound _ _ H2) as U2.
    assert (String.length r1 = String.length r2) as Hlen.
    { simpl String.length in U1, U2.
      destruct (Nat.lt_trichotomy (String.length r1) (String.length r2))
        as [Hlt|[Heq|Hlt]]; [exfalso|assumption|exfalso].
      - assert (10 ^ N.of_nat (S (String.length r1))
                <= 10 ^ N.of_nat (String.length r2))%N
          by (apply N.pow_le_mono_r; lia). lia.
      - assert (10 ^ N.of_nat (S (String.length r2))
                <= 10 ^ N.of_nat (String.length r1))%N
          by (apply N.pow_le_mono_r; lia). lia. }
    eapply digits_val_inj; [simpl; congruence|eassumption..].
Qed.


(** ** Reading and writing properties *)

Section ObjectFacts.
Context {V : Type}.
Implicit Types (o : obj V) (k : string) (v : V).

Lemma obj_get_None k o : obj_get k o = None <-> k ∉ keys o.
Proof.
  induction o as [|[k' v'] r IH]; simpl.
  - split; [intros _ H%elem_of_nil; exact H | reflexivity].
  - rewrite not_elem_of_cons.
    destruct (String.eqb_spec k k') as [->|Hne].
    + split; [discriminate|]. intros [[] _]. reflexivity.
    + rewrite IH. tauto.
Qed.

Lemma obj_has_In k o : obj_has k o = true <-> k ∈ keys o.
Proof.
  unfold obj_has. destruct (obj_get k o) eqn:E.
  - split; [|reflexivity]. intros _.
    destruct (decide (k ∈ keys o)) as [?|Hn]; [assumption|].
    apply obj_get_None in Hn. congruence.
  - apply obj_get_None in E. split; [discriminate|tauto].
Qed.

Lemma obj_has_false k o : obj_has k o = false <-> k ∉ keys o.
Proof. rewrite <- obj_has_In. destruct (obj_has k o); split; congruence. Qed.

Lemma elem_of_keys k v o : (k, v) ∈ o -> k ∈ keys o.
Proof.
  rewrite !list_elem_of_In. intros H.
  change k with (fst (k, v)). now apply in_map.
Qed.

Lemma obj_get_In k v o : obj_get k o = Some v -> (k, v) ∈ o.
Proof.
  induction o as [|[k' v'] r IH]; simpl; [discriminate|].
  destruct (String.eqb_spec k k') as [->|Hne].
  - intros [= ->]. left.
  - right. auto.
Qed.

Lemma In_obj_get k v o : NoDup (keys o) -> (k, v) ∈ o -> obj_get k o = Some v.
Proof.
  induction o as [|[k' v'] r IH]; simpl.
  - intros _ H%elem_of_nil. destruct H.
  - intros [Hk Hr]%NoDup_cons [[= -> ->]|Hin]%elem_of_cons.
    + now rewrite String.eqb_refl.
    + destruct (String.eqb_spec k k') as [->|Hne]; [|auto].
      exfalso. apply Hk. eapply elem_of_keys, Hin.
Qed.

Lemma obj_get_app k o1 o2 :
  obj_get k (o1 ++ o2) =
  match obj_get k o1 with Some v => Some v | None => obj_get k o2 end.
Proof.
  induction o1 as [|[k' v'] r IH]; simpl; [reflexivity|].
  destruct (String.eqb k k'); auto.
Qed.

Lemma keys_update k v o : keys (obj_update k v o) = keys o.
Proof.
  induction o as [|[k' v'] r IH]; simpl; [reflexivity|].
  destruct (String.eqb k k'); simpl; congruence.
Qed.

Lemma obj_get_update k k' v o :
  obj_get k (obj_update k' v o) =
  if String.eqb k k' then (if obj_has k' o then Some v else None)
  else obj_get k o.
Proof.
  unfold obj_has.
  induction o as [|[k2 v2] r IH]; simpl.
  - now destruct (String.eqb k k').
  - destruct (String.eqb_spec k' k2) as [->|Hne]; simpl.
    + destruct (String.eqb_spec k k2); reflexivity.
    + destruct (String.eqb_spec k k2) as [->|Hne2].
      * destruct (String.eqb_spec k2 k'); congruence.
      * apply IH.
Qed.

Lemma obj_update_same k v o : obj_get k o = Some v -> obj_update k v o = o.
Proof.
  induction o as [|[k' v'] r IH]; simpl; [reflexivity|].
  destruct (String.eqb_spec k k') as [->|Hne].
  - now intros [= ->].
  - intros H. now rewrite IH.
Qed.

Lemma keys_insert_index n k v o :
  Permutation (keys (obj_insert_index n k v o)) (k :: keys o).
Proof.
  induction o as [|[k' v'] r IH]; simpl; [reflexivity|].
  destruct (array_index k') as [n'|]; [|reflexivity].
  destruct (n <? n')%N; [reflexivity|]. simpl.
  rewrite IH. apply perm_swap.
Qed.

Lemma insert_index_perm n k v o :
  Permutation (obj_insert_index n k v o) ((k, v) :: o).
Proof.
  induction o as [|[k' v'] r IH]; simpl; [reflexivity|].
  destruct (array_index k') as [n'|]; [|reflexivity].
  destruct (n <? n')%N; [reflexivity|].
  rewrite IH. apply perm_swap.
Qed.

Lemma obj_get_insert_index n k k' v o :
  obj_get k' o = None ->
  obj_get k (obj_insert_index n k' v o) =
  if String.eqb k k' then Some v else obj_get k o.
Proof.
  induction o as [|[k2 v2] r IH]; simpl; [reflexivity|].
  destruct (String.eqb_spec k' k2) as [->|Hne]; [discriminate|].
  intros Hr.
  destruct (array_index k2) as [n'|]; [destruct (n <? n')%N|]; simpl;
    try reflexivity.
  rewrite (IH Hr).
  destruct (String.eqb_spec k k2) as [->|?]; [|reflexivity].
  destruct (String.eqb_spec k2 k'); congruence.
Qed.

(** Reading after [o[k'] = v]. *)
Lemma obj_get_set k k' v o :
  obj_get k (obj_set k' v o) =
  if String.eqb k k' then Some v else obj_get k o.
Proof.
  unfold obj_set. destruct (obj_has k' o) eqn:Hh.
  - rewrite obj_get_update, Hh. reflexivity.
  - assert (obj_get k' o = None) as Hn.
    { unfold obj_has in Hh. destruct (obj_get k' o); congruence. }
    destruct (array_index k') as [n|].
    + now apply obj_get_insert_index.
    + rewrite obj_get_app. simpl.
      destruct (String.eqb_spec k k') as [->|Hne].
      * now rewrite Hn.
      * now destruct (obj_get k o).
Qed.

Lemma obj_has_set k k' v o :
  obj_has k (obj_set k' v o) = String.eqb k k' || obj_has k o.
Proof.
  unfold obj_has at 1. rewrite obj_get_set.
  destruct (String.eqb k k'); reflexivity.
Qed.

Lemma obj_set_same k v o : obj_get k o = Some v -> obj_set k v o = o.
Proof.
  intros H. unfold obj_set, obj_has. rewrite H. now apply obj_update_same.
Qed.

Lemma keys_set_has k v o : obj_has k o = true -> keys (obj_set k v o) = keys o.
Proof. intros H. unfold obj_set. rewrite H. apply keys_update. Qed.

Lemma keys_set_perm k v o :
  obj_has k o = false -> Permutation (keys (obj_set k v o)) (k :: keys o).
Proof.
  intros H. unfold obj_set. rewrite H.
  destruct (array_index k).
  - apply keys_insert_index.
  - unfold keys. rewrite map_app. simpl.
    symmetry. apply Permutation_cons_append.
Qed.

Lemma NoDup_keys_set k v o : NoDup (keys o) -> NoDup (keys (obj_set k v o)).
Proof.
  intros Hnd. destruct (obj_has k o) eqn:Hh.
  - now rewrite keys_set_has.
  - rewrite keys_set_perm by assumption.
    apply NoDup_cons. split; [now apply obj_has_false|assumption].
Qed.

Lemma NoDup_keys_spread (src dst : obj V) :
  NoDup (keys dst) -> NoDup (keys (spread src dst)).
Proof.
  unfold spread. revert dst.
  induction src as [|[k v] r IH]; simpl; intros dst H; [assumption|].
  apply IH. now apply NoDup_keys_set.
Qed.

(** Objects with the same keys in the same order and the same values. *)
Lemma obj_ext o1 o2 :
  keys o1 = keys o2 -> NoDup (keys o1) ->
  (forall k, obj_get k o1 = obj_get k o2) -> o1 = o2.
Proof.
  revert o2.
  induction o1 as [|[k v] r IH]; intros [|[k2 v2] r2]; simpl; try discriminate;
    [reflexivity|].
  intros [= <- Hk] [Hin Hr]%NoDup_cons Hget.
  pose proof (Hget k) as Hv. rewrite String.eqb_refl in Hv.
  injection Hv as <-. f_equal. apply IH; [assumption..|].
  intros k'. destruct (decide (k' = k)) as [->|Hne].
  - assert (obj_get k r = None) as -> by now apply obj_get_None.
    symmetry. apply obj_get_None. now rewrite <- Hk.
  - specialize (Hget k'). apply String.eqb_neq in Hne.
    now rewrite Hne in Hget.
Qed.

End ObjectFacts.

(** ** Spread, as a fold of assignments *)

Section SpreadFacts.
Context {V : Type}.
Implicit Types (o src dst : obj V) (k : string) (v : V).

Lemma spread_cons k v src dst :
  spread ((k, v) :: src) dst = spread src (obj_set k v dst).
Proof. reflexivity. Qed.

Lemma spread_app src1 src2 dst :
  spread (src1 ++ src2) dst = spread src2 (spread src1 dst).
Proof. unfold spread. apply fold_left_app. Qed.

Lemma obj_has_spread k src dst :
  obj_has k (spread src dst) = obj_has k src || obj_has k dst.
Proof.
  revert dst. induction src as [|[k' v'] r IH]; intros dst; [reflexivity|].
  rewrite spread_cons, IH, obj_has_set.
  unfold obj_has at 3. simpl.
  destruct (String.eqb k k'); [|reflexivity].
  now rewrite orb_true_r.
Qed.

(** The properties of [src] that are already in [dst] keep their place. *)
Lemma keys_spread_has src dst :
  (forall k, k ∈ keys src -> k ∈ keys dst) ->
  keys (spread src dst) = keys dst.
Proof.
  revert dst. induction src as [|[k v] r IH]; intros dst H; [reflexivity|].
  rewrite spread_cons.
  assert (obj_has k dst = true) as Hk by (apply obj_has_In, H; left).
  rewrite IH; [now apply keys_set_has|].
  intros k' Hk'. rewrite keys_set_has by assumption. apply H. now right.
Qed.

(** Two targets that read the same still do after the same spread. *)
Lemma obj_get_spread_ext k src dst1 dst2 :
  (forall k, obj_get k dst1 = obj_get k dst2) ->
  obj_get k (spread src dst1) = obj_get k (spread src dst2).
Proof.
  revert dst1 dst2. induction src as [|[k' v'] r IH]; intros dst1 dst2 H;
    [apply H|].
  rewrite !spread_cons. apply IH. intros k2. rewrite !obj_get_set.
  destruct (String.eqb k2 k'); [reflexivity|apply H].
Qed.

(** A key that [src] does not have is read from the target. *)
Lemma obj_get_spread_other k src dst :
  k ∉ keys src -> obj_get k (spread src dst) = obj_get k dst.
Proof.
  revert dst. induction src as [|[k' v'] r IH]; intros dst Hk; [reflexivity|].
  simpl in Hk. apply not_elem_of_cons in Hk as [Hne Hk].
  rewrite spread_cons, IH, obj_get_set by assumption.
  apply String.eqb_neq in Hne. now rewrite Hne.
Qed.

(** A key of [src] is read from [src]: the source wins over the target. *)
Lemma obj_get_spread_src k src dst1 dst2 :
  k ∈ keys src -> obj_get k (spread src dst1) = obj_get k (spread src dst2).
Proof.
  revert dst1 dst2. induction src as [|[k' v'] r IH]; intros dst1 dst2 Hk.
  - apply elem_of_nil in Hk as [].
  - rewrite !spread_cons.
    destruct (decide (k ∈ keys r)) as [Hr|Hr]; [now apply IH|].
    rewrite !obj_get_spread_other by assumption.
    simpl in Hk. apply elem_of_cons in Hk as [->|?]; [|contradiction].
    now rewrite !obj_get_set, String.eqb_refl.
Qed.

Lemma obj_get_spread_NoDup k src dst :
  NoDup (keys src) ->
  obj_get k (spread src dst) =
  match obj_get k src with Some v => Some v | None => obj_get k dst end.
Proof.
  revert dst. induction src as [|[k' v'] r IH]; intros dst Hnd; [reflexivity|].
  simpl in Hnd. apply NoDup_cons in Hnd as [Hk' Hr].
  rewrite spread_cons, IH by assumption. simpl.
  destruct (String.eqb_spec k k') as [->|Hne].
  - apply obj_get_None in Hk'. rewrite Hk'.
    now rewrite obj_get_set, String.eqb_refl.
  - rewrite obj_get_set. apply String.eqb_neq in Hne. now rewrite Hne.
Qed.

(** Spreading twice the same source changes nothing more. *)
Lemma spread_twice src dst :
  NoDup (keys dst) -> spread src (spread src dst) = spread src dst.
Proof.
  intros Hnd. apply obj_ext.
  - apply keys_spread_has. intros k Hk.
    apply obj_has_In. rewrite obj_has_spread.
    apply obj_has_In in Hk. now rewrite Hk.
  - now apply NoDup_keys_spread, NoDup_keys_spread.
  - intros k. destruct (decide (k ∈ keys src)).
    + now apply obj_get_spread_src.
    + now rewrite obj_get_spread_other.
Qed.

End SpreadFacts.

(** ** Well-formed property lists *)

Lemma prop_before_trans k1 k2 k3 :
  prop_before k1 k2 -> prop_before k2 k3 -> prop_before k1 k3.
Proof.
  unfold prop_before.
  destruct (array_index k1), (array_index k2), (array_index k3);
    try tauto; lia.
Qed.

Lemma prop_before_nonindex k1 k2 : array_index k2 = None -> prop_before k1 k2.
Proof. unfold prop_before. intros ->. now destruct (array_index k1). Qed.

Section WellFormed.
Context {V : Type}.
Implicit Types (o : obj V) (k : string) (v : V).

Lemma wf_obj_nil : wf_obj (@nil (string * V)).
Proof. split; constructor. Qed.

Lemma insert_index_sorted n k v o :
  array_index k = Some n -> k ∉ keys o ->
  StronglySorted prop_before (keys o) ->
  StronglySorted prop_before (keys (obj_insert_index n k v o)).
Proof.
  intros Hk. induction o as [|[k' v'] r IH]; simpl; intros Hnin Hs.
  - repeat constructor.
  - apply not_elem_of_cons in Hnin as [Hne Hnin].
    apply StronglySorted_cons in Hs as [Hall Hs].
    assert (Hfront : prop_before k k' ->
              StronglySorted prop_before (k :: k' :: keys r)).
    { intros Hb. apply StronglySorted_cons. split.
      - constructor; [assumption|].
        eapply Forall_impl; [exact Hall|].
        intros x Hx. eapply prop_before_trans; eassumption.
      - now apply StronglySorted_cons. }
    destruct (array_index k') as [n'|] eqn:Hk'.
    + destruct (N.ltb_spec n n') as [Hlt|Hge].
      * apply Hfront. unfold prop_before. now rewrite Hk, Hk'.
      * simpl. apply StronglySorted_cons. split; [|now apply IH].
        rewrite keys_insert_index. constructor; [|assumption].
        unfold prop_before. rewrite Hk, Hk'.
        assert (n <> n'); [|lia].
        intros ->. apply Hne. eapply array_index_inj; eassumption.
    + apply Hfront. now apply prop_before_nonindex.
Qed.

Lemma wf_obj_set k v o : wf_obj o -> wf_obj (obj_set k v o).
Proof.
  intros [Hnd Hs]. split; [now apply NoDup_keys_set|].
  unfold obj_set. destruct (obj_has k o) eqn:Hh.
  - now rewrite keys_update.
  - apply obj_has_false in Hh.
    destruct (array_index k) as [n|] eqn:Hk.
    + now apply insert_index_sorted.
    + unfold keys. rewrite map_app. apply StronglySorted_app_2.
      * intros x1 x2 _ ->%list_elem_of_singleton.
        now apply prop_before_nonindex.
      * assumption.
      * repeat constructor.
Qed.

Lemma wf_obj_spread (src dst : obj V) : wf_obj dst -> wf_obj (spread src dst).
Proof.
  revert dst. induction src as [|[k v] r IH]; intros dst H; [assumption|].
  rewrite spread_cons. now apply IH, wf_obj_set.
Qed.

Lemma wf_obj_fromEntries (es : list (string * V)) :
  wf_obj (Object_fromEntries es).
Proof. apply wf_obj_spread, wf_obj_nil. Qed.

Lemma insert_index_end n k v o :
  array_index k = Some n ->
  Forall (fun x => prop_before x k) (keys o) ->
  obj_insert_index n k v o = o ++ [(k, v)].
Proof.
  intros Hk. induction o as [|[k' v'] r IH]; simpl; intros Hall;
    [reflexivity|].
  apply Forall_cons in Hall as [Hb Hall].
  unfold prop_before in Hb. rewrite Hk in Hb.
  destruct (array_index k') as [n'|]; [|contradiction].
  destruct (N.ltb_spec n n'); [lia|]. now rewrite IH.
Qed.

(** Copying a well-formed object gives the same object. *)
Lemma spread_wf_app (l acc : obj V) :
  wf_obj (acc ++ l) -> spread l acc = acc ++ l.
Proof.
  revert acc. induction l as [|[k v] r IH]; intros acc Hwf.
  - now rewrite app_nil_r.
  - rewrite spread_cons.
    assert (obj_set k v acc = acc ++ [(k, v)]) as ->.
    { destruct Hwf as [Hnd Hs]. unfold keys in Hnd, Hs.
      rewrite map_app in Hnd, Hs. simpl in Hnd, Hs.
      unfold obj_set.
      assert (obj_has k acc = false) as ->.
      { apply obj_has_false. apply NoDup_app in Hnd as (_ & Hd & _).
        intros Hin. apply (Hd k Hin). left. }
      destruct (array_index k) as [n|] eqn:Hk; [|reflexivity].
      apply insert_index_end; [assumption|].
      apply Forall_forall. intros x Hx.
      eapply StronglySorted_app_1_elem_of; [exact Hs|exact Hx|left]. }
    rewrite IH; rewrite <- app_assoc; [reflexivity|exact Hwf].
Qed.

Lemma spread_wf (o : obj V) : wf_obj o -> spread o [] = o.
Proof. intros H. now apply (spread_wf_app o []). Qed.

End WellFormed.

(** ** The default sort *)

Lemma ltb_false_leb a b : String.ltb a b = false <-> String.leb b a = true.
Proof.
  unfold String.ltb, String.leb. rewrite (String.compare_antisym a b).
  destruct (String.compare b a); simpl; split; congruence.
Qed.

Lemma entry_le_trans e1 e2 e3 : entry_le e1 e2 -> entry_le e2 e3 -> entry_le e1 e3.
Proof.
  unfold entry_le. rewrite !ltb_false_leb. intros H1 H2.
  apply Is_true_true. apply Is_true_true in H1, H2.
  change (String.le (entry_string e1) (entry_string e3)).
  etransitivity; eassumption.
Qed.

Lemma entry_le_total e1 e2 : entry_le e1 e2 \/ entry_le e2 e1.
Proof.
  unfold entry_le. rewrite !ltb_false_leb. apply String.leb_total.
Qed.

Lemma sort_insert_perm e l : sort_insert e l ≡ₚ e :: l.
Proof.
  induction l as [|e' r IH]; simpl; [reflexivity|].
  destruct (String.ltb _ _); [|reflexivity].
  rewrite IH. apply perm_swap.
Qed.

Lemma Array_sort_perm l : Array_sort l ≡ₚ l.
Proof.
  induction l as [|e r IH]; simpl; [reflexivity|].
  now rewrite sort_insert_perm, IH.
Qed.

Lemma sort_insert_sorted e l :
  StronglySorted entry_le l -> StronglySorted entry_le (sort_insert e l).
Proof.
  induction l as [|e' r IH]; simpl; intros Hs; [repeat constructor|].
  apply StronglySorted_cons in Hs as [Hall Hs].
  destruct (String.ltb (entry_string e') (entry_string e)) eqn:Hlt.
  - apply StronglySorted_cons. split; [|now apply IH].
    rewrite sort_insert_perm. constructor; [|assumption].
    destruct (entry_le_total e' e) as [?|Hle]; [assumption|].
    unfold entry_le in Hle. congruence.
  - apply StronglySorted_cons. split.
    + constructor; [exact Hlt|].
      eapply Forall_impl; [exact Hall|].
      intros x Hx. eapply entry_le_trans; [exact Hlt|exact Hx].
    + now apply StronglySorted_cons.
Qed.

Lemma Array_sort_sorted l : StronglySorted entry_le (Array_sort l).
Proof.
  induction l as [|e r IH]; simpl; [constructor|now apply sort_insert_sorted].
Qed.

Lemma sort_insert_head e l : Forall (entry_le e) l -> sort_insert e l = e :: l.
Proof.
  destruct l as [|e' r]; simpl; [reflexivity|].
  intros [Hle _]%Forall_cons. unfold entry_le in Hle. now rewrite Hle.
Qed.

(** Sorting what is sorted changes nothing: the sort is stable. *)
Lemma Array_sort_sorted_id l : StronglySorted entry_le l -> Array_sort l = l.
Proof.
  induction l as [|e r IH]; simpl; [reflexivity|].
  intros [Hall Hs]%StronglySorted_cons.
  rewrite IH by assumption. now apply sort_insert_head.
Qed.

Lemma StronglySorted_filter {A} (R : A -> A -> Prop) (P : A -> Prop)
    `{!forall x, Decision (P x)} (l : list A) :
  StronglySorted R l -> StronglySorted R (filter P l).
Proof.
  induction l as [|x r IH]; [constructor|].
  intros [Hall Hs]%StronglySorted_cons.
  rewrite filter_cons. destruct (decide (P x)); [|auto].
  apply StronglySorted_cons. split; [|auto].
  apply Forall_forall. intros y [_ Hy]%list_elem_of_filter.
  rewrite Forall_forall in Hall. auto.
Qed.

Lemma filter_sort_insert (P : string * string -> Prop)
    `{!forall x, Decision (P x)} e l :
  StronglySorted entry_le l ->
  filter P (sort_insert e l) =
  if decide (P e) then sort_insert e (filter P l) else filter P l.
Proof.
  induction l as [|e' r IH]; simpl; intros Hs.
  - rewrite filter_cons. now destruct (decide (P e)).
  - apply StronglySorted_cons in Hs as [Hall Hs].
    destruct (String.ltb (entry_string e') (entry_string e)) eqn:Hlt.
    + rewrite !filter_cons, IH by assumption.
      destruct (decide (P e')), (decide (P e)); simpl; try reflexivity.
      now rewrite Hlt.
    + rewrite (filter_cons P e). destruct (decide (P e)); [|reflexivity].
      rewrite sort_insert_head; [reflexivity|].
      apply Forall_forall. intros y [_ Hy]%list_elem_of_filter.
      apply elem_of_cons in Hy as [->|Hy]; [exact Hlt|].
      rewrite Forall_forall in Hall.
      eapply entry_le_trans; [exact Hlt|auto].
Qed.

(** Keeping some entries commutes with sorting. *)
Lemma filter_Array_sort (P : string * string -> Prop)
    `{!forall x, Decision (P x)} l :
  filter P (Array_sort l) = Array_sort (filter P l).
Proof.
  induction l as [|e r IH]; simpl; [reflexivity|].
  rewrite filter_sort_insert by apply Array_sort_sorted.
  rewrite filter_cons, IH. now destruct (decide (P e)).
Qed.

Lemma Array_sort_app_sorted l1 l2 :
  Array_sort (l1 ++ Array_sort l2) = Array_sort (l1 ++ l2).
Proof.
  induction l1 as [|e r IH]; simpl.
  - apply Array_sort_sorted_id, Array_sort_sorted.
  - now rewrite IH.
Qed.

(** ** Objects up to the order of their properties *)

Section Reordering.
Context {V : Type}.
Implicit Types (o : obj V) (k : string) (v : V).

Lemma keys_perm o1 o2 : o1 ≡ₚ o2 -> keys o1 ≡ₚ keys o2.
Proof. intros H. unfold keys. now apply Permutation_map. Qed.

Lemma obj_get_perm k o1 o2 :
  NoDup (keys o1) -> o1 ≡ₚ o2 -> obj_get k o1 = obj_get k o2.
Proof.
  intros Hnd Hp.
  assert (NoDup (keys o2)) as Hnd2 by now rewrite <- (keys_perm _ _ Hp).
  destruct (obj_get k o1) as [v|] eqn:E.
  - symmetry. apply In_obj_get; [assumption|].
    rewrite <- Hp. now apply obj_get_In.
  - symmetry. apply obj_get_None. rewrite <- (keys_perm _ _ Hp).
    now apply obj_get_None.
Qed.

Lemma obj_set_perm k v o : k ∉ keys o -> obj_set k v o ≡ₚ (k, v) :: o.
Proof.
  intros Hk%obj_has_false. unfold obj_set. rewrite Hk.
  destruct (array_index k).
  - apply insert_index_perm.
  - symmetry. apply Permutation_cons_append.
Qed.

Lemma spread_perm (l acc : obj V) :
  NoDup (keys l) -> (forall k, k ∈ keys l -> k ∉ keys acc) ->
  spread l acc ≡ₚ acc ++ l.
Proof.
  revert acc. induction l as [|[k v] r IH]; intros acc Hnd Hdis.
  - now rewrite app_nil_r.
  - simpl in Hnd. apply NoDup_cons in Hnd as [Hk Hr].
    assert (k ∉ keys acc) as Hka by (apply Hdis; left).
    rewrite spread_cons, IH; [| assumption |].
    + rewrite obj_set_perm by assumption. simpl.
      now rewrite Permutation_middle.
    + intros k' Hk'. rewrite (keys_perm _ _ (obj_set_perm k v acc Hka)).
      simpl. apply not_elem_of_cons. split; [congruence|].
      apply Hdis. now right.
Qed.

Lemma fromEntries_perm (l : list (string * V)) :
  NoDup (keys l) -> Object_fromEntries l ≡ₚ l.
Proof.
  intros H. unfold Object_fromEntries. rewrite spread_perm; [reflexivity|assumption|].
  intros k _. apply not_elem_of_nil.
Qed.

Lemma filter_nonindex_insert n k v o :
  array_index k = Some n ->
  filter nonindex_entry (obj_insert_index n k v o) = filter nonindex_entry o.
Proof.
  intros Hk.
  assert (Hskip : forall l, filter nonindex_entry ((k, v) :: l)
                            = filter nonindex_entry l).
  { intros l. rewrite filter_cons. destruct (decide _) as [H|]; [|reflexivity].
    unfold nonindex_entry, is_index in H. simpl in H. now rewrite Hk in H. }
  induction o as [|[k' v'] r IH]; cbn [obj_insert_index]; [apply Hskip|].
  destruct (array_index k') as [n'|]; [|apply Hskip].
  destruct (n <? n')%N; [apply Hskip|].
  rewrite !(filter_cons _ (k', v')).
  destruct (decide (nonindex_entry (k', v'))); [f_equal|]; exact IH.
Qed.

Lemma filter_nonindex_set k v o :
  k ∉ keys o ->
  filter nonindex_entry (obj_set k v o) =
  filter nonindex_entry o ++ filter nonindex_entry [(k, v)].
Proof.
  intros Hk%obj_has_false. unfold obj_set. rewrite Hk.
  destruct (array_index k) as [n|] eqn:Hi.
  - rewrite (filter_nonindex_insert n) by assumption.
    rewrite filter_cons. destruct (decide _) as [H|].
    + unfold nonindex_entry, is_index in H. simpl in H. now rewrite Hi in H.
    + now rewrite app_nil_r.
  - apply filter_app.
Qed.

Lemma filter_nonindex_spread (l acc : obj V) :
  NoDup (keys l) -> (forall k, k ∈ keys l -> k ∉ keys acc) ->
  filter nonindex_entry (spread l acc) =
  filter nonindex_entry acc ++ filter nonindex_entry l.
Proof.
  revert acc. induction l as [|[k v] r IH]; intros acc Hnd Hdis.
  - now rewrite app_nil_r.
  - simpl in Hnd. apply NoDup_cons in Hnd as [Hk Hr].
    assert (k ∉ keys acc) as Hka by (apply Hdis; left).
    rewrite spread_cons, IH; [| assumption |].
    + rewrite filter_nonindex_set by assumption.
      rewrite <- app_assoc. f_equal.
      symmetry. apply (filter_app _ [(k, v)] r).
    + intros k' Hk'. rewrite (keys_perm _ _ (obj_set_perm k v acc Hka)).
      simpl. apply not_elem_of_cons. split; [congruence|].
      apply Hdis. now right.
Qed.

Lemma filter_nonindex_fromEntries (l : list (string * V)) :
  NoDup (keys l) ->
  filter nonindex_entry (Object_fromEntries l) = filter nonindex_entry l.
Proof.
  intros H. unfold Object_fromEntries.
  rewrite filter_nonindex_spread; [reflexivity|assumption|].
  intros k _. apply not_elem_of_nil.
Qed.

(** A well-formed object is its array indices followed by the rest. *)
Lemma wf_obj_split o :
  wf_obj o -> o = filter index_entry o ++ filter nonindex_entry o.
Proof.
  intros [_ Hs]. induction o as [|[k v] r IH]; [reflexivity|].
  simpl in Hs. apply StronglySorted_cons in Hs as [Hall Hs].
  rewrite !filter_cons.
  destruct (is_index k) eqn:Hk.
  - destruct (decide (index_entry (k, v))) as [_|Hn];
      [|exfalso; apply Hn; exact Hk].
    destruct (decide (nonindex_entry (k, v))) as [Hn|_];
      [unfold nonindex_entry in Hn; simpl in Hn; congruence|].
    simpl. f_equal. now apply IH.
  - destruct (decide (index_entry (k, v))) as [Hn|_];
      [unfold index_entry in Hn; simpl in Hn; congruence|].
    destruct (decide (nonindex_entry (k, v))) as [_|Hn];
      [|exfalso; apply Hn; exact Hk].
    assert (filter index_entry r = [] /\ filter nonindex_entry r = r) as [-> ->];
      [|reflexivity].
    clear IH Hs. induction r as [|[k' v'] r' IHr]; [split; reflexivity|].
    simpl in Hall. apply Forall_cons in Hall as [Hb Hall].
    assert (is_index k' = false) as Hk'.
    { unfold prop_before, is_index in *.
      destruct (array_index k); [discriminate|].
      now destruct (array_index k'). }
    rewrite !filter_cons.
    destruct (decide (index_entry (k', v'))) as [Hn|_];
      [unfold index_entry in Hn; simpl in Hn; congruence|].
    destruct (decide (nonindex_entry (k', v'))) as [_|Hn];
      [|exfalso; apply Hn; exact Hk'].
    destruct (IHr Hall) as [-> ->]. split; reflexivity.
Qed.

Lemma wf_obj_index_sorted o :
  wf_obj o -> StronglySorted index_lt (filter index_entry o).
Proof.
  intros [_ Hs]. induction o as [|[k v] r IH]; [constructor|].
  simpl in Hs. apply StronglySorted_cons in Hs as [Hall Hs].
  rewrite filter_cons. destruct (decide _) as [Hk|]; [|auto].
  apply StronglySorted_cons. split; [|auto].
  apply Forall_forall. intros [k' v'] [Hk' Hin]%list_elem_of_filter.
  rewrite Forall_forall in Hall.
  specialize (Hall k' (elem_of_keys _ _ _ Hin)).
  unfold index_entry, is_index in Hk, Hk'. simpl in Hk, Hk'.
  unfold prop_before in Hall. unfold index_lt. simpl.
  destruct (array_index k), (array_index k'); try discriminate. exact Hall.
Qed.

(** Two well-formed objects with the same properties and the same order of
    the keys that are not array indices are the same object. *)
Lemma wf_obj_unique o1 o2 :
  wf_obj o1 -> wf_obj o2 -> o1 ≡ₚ o2 ->
  filter nonindex_entry o1 = filter nonindex_entry o2 -> o1 = o2.
Proof.
  intros H1 H2 Hp Hn.
  rewrite (wf_obj_split o1 H1), (wf_obj_split o2 H2), Hn. f_equal.
  apply (StronglySorted_unique_strong index_lt).
  - intros [k1 v1] [k2 v2] _ _. unfold index_lt. simpl.
    destruct (array_index k1), (array_index k2); try tauto. lia.
  - now apply wf_obj_index_sorted.
  - now apply wf_obj_index_sorted.
  - now rewrite Hp.
Qed.

End Reordering.

(** ** The merged [devDependencies] *)

(** Sorting and rebuilding an object whose other-than-index entries are
    already in sort order gives the object back. *)
Lemma fromEntries_sort_fixed (d : obj string) :
  wf_obj d -> StronglySorted entry_le (filter nonindex_entry d) ->
  Object_fromEntries (Array_sort d) = d.
Proof.
  intros Hwf Hs.
  assert (NoDup (keys (Array_sort d))) as Hnd.
  { rewrite (keys_perm _ _ (Array_sort_perm d)). apply Hwf. }
  apply wf_obj_unique.
  - apply wf_obj_fromEntries.
  - assumption.
  - rewrite fromEntries_perm by assumption. apply Array_sort_perm.
  - rewrite filter_nonindex_fromEntries by assumption.
    rewrite filter_Array_sort. now apply Array_sort_sorted_id.
Qed.

Section Merge.
Variables (peer : obj string) (pf : string).

Lemma wf_mergedEntries m : wf_obj (mergedEntries peer pf m).
Proof. apply wf_obj_spread, wf_obj_spread, wf_obj_nil. Qed.

Lemma NoDup_sorted_merged m :
  NoDup (keys (Array_sort (mergedEntries peer pf m))).
Proof.
  rewrite (keys_perm _ _ (Array_sort_perm _)). apply wf_mergedEntries.
Qed.

Lemma mergeDevDependencies_perm m :
  mergeDevDependencies peer pf m ≡ₚ mergedEntries peer pf m.
Proof.
  unfold mergeDevDependencies, Object_entries.
  rewrite fromEntries_perm by apply NoDup_sorted_merged.
  apply Array_sort_perm.
Qed.

Lemma wf_mergeDevDependencies m : wf_obj (mergeDevDependencies peer pf m).
Proof. apply wf_obj_fromEntries. Qed.

(** Sorting changes the order only: every key reads as in the merge. *)
Lemma obj_get_mergeDevDependencies k m :
  obj_get k (mergeDevDependencies peer pf m) =
  obj_get k (mergedEntries peer pf m).
Proof.
  apply obj_get_perm; [apply wf_mergeDevDependencies|].
  apply mergeDevDependencies_perm.
Qed.

Lemma obj_has_mergeDevDependencies k m :
  obj_has k (mergeDevDependencies peer pf m) =
  obj_has k (mergedEntries peer pf m).
Proof. unfold obj_has. now rewrite obj_get_mergeDevDependencies. Qed.

Lemma mergeDevDependencies_fixed m :
  Object_fromEntries (Array_sort (mergeDevDependencies peer pf m)) =
  mergeDevDependencies peer pf m.
Proof.
  apply fromEntries_sort_fixed; [apply wf_mergeDevDependencies|].
  unfold mergeDevDependencies, Object_entries.
  rewrite filter_nonindex_fromEntries by apply NoDup_sorted_merged.
  apply StronglySorted_filter, Array_sort_sorted.
Qed.

(** Merging again, from the merged map, gives the merged map. *)
Lemma mergeDevDependencies_again m m' :
  dependencies m' = dependencies m ->
  devDependencies m' = Some (mergeDevDependencies peer pf m) ->
  mergeDevDependencies peer pf m' = mergeDevDependencies peer pf m.
Proof.
  intros Hdep Hdev.
  set (d := mergeDevDependencies peer pf m).
  set (n := newDevDependenciesToInstall peer pf (or_empty (dependencies m))).
  assert (mergedEntries peer pf m' = d) as Hm.
  { unfold mergedEntries. rewrite Hdep, Hdev. simpl. fold n. fold d.
    rewrite (spread_wf d) by apply wf_mergeDevDependencies.
    assert (forall k, obj_get k d = obj_get k (mergedEntries peer pf m)) as Hd
      by (intros; apply obj_get_mergeDevDependencies).
    apply obj_ext.
    - apply keys_spread_has. intros k Hk.
      apply obj_has_In. unfold d. rewrite obj_has_mergeDevDependencies.
      unfold mergedEntries. fold n. rewrite obj_has_spread.
      apply obj_has_In in Hk. now rewrite Hk.
    - apply NoDup_keys_spread, wf_mergeDevDependencies.
    - intros k. rewrite Hd.
      rewrite (obj_get_spread_ext k n d (mergedEntries peer pf m) Hd).
      unfold mergedEntries. fold n.
      rewrite spread_twice; [reflexivity|].
      apply NoDup_keys_spread. constructor. }
  unfold mergeDevDependencies at 1. unfold Object_entries. rewrite Hm.
  apply mergeDevDependencies_fixed.
Qed.

End Merge.

(** ** The pinned resolutions *)

Lemma set_after_spread {V} k (v : V) (src dst : obj V) :
  obj_set k v (spread src dst) = spread (src ++ [(k, v)]) dst.
Proof. rewrite spread_app. reflexivity. Qed.

(** The entries that the object literal sets after the old resolutions. *)
Lemma newResolutions_spread existing dev :
  newResolutions existing dev =
  spread (pinEntries dev) (spread (or_empty existing) []).
Proof.
  unfold newResolutions, pinEntries. apply set_after_spread.
Qed.

Lemma pinsOf_entries dev :
  pinsOf dev = map (fun name => (name, obj_get name dev)) pinnedPackages.
Proof. vm_compute. reflexivity. Qed.

Lemma pinEntries_map dev :
  pinEntries dev = map (fun k => (k, obj_get (pinSource k) dev)) pinKeys.
Proof. unfold pinEntries. rewrite pinsOf_entries. reflexivity. Qed.

Lemma keys_pinEntries dev : keys (pinEntries dev) = pinKeys.
Proof.
  rewrite pinEntries_map. unfold keys. rewrite map_map. apply map_id.
Qed.

Lemma NoDup_pinKeys : NoDup pinKeys.
Proof. compute_done. Qed.

Section Filtering.
Context {V : Type} (P : string * V -> Prop) `{!forall e, Decision (P e)}.

Lemma filter_insert_index n k v (o : obj V) :
  ~ P (k, v) -> filter P (obj_insert_index n k v o) = filter P o.
Proof.
  intros Hn.
  assert (Hskip : forall l, filter P ((k, v) :: l) = filter P l).
  { intros l. rewrite filter_cons. now destruct (decide _). }
  induction o as [|[k' v'] r IH]; cbn [obj_insert_index]; [apply Hskip|].
  destruct (array_index k') as [n'|]; [|apply Hskip].
  destruct (n <? n')%N; [apply Hskip|].
  rewrite !(filter_cons _ (k', v')).
  destruct (decide (P (k', v'))); [f_equal|]; exact IH.
Qed.

Lemma filter_set_new k v (o : obj V) :
  k ∉ keys o -> ~ P (k, v) -> filter P (obj_set k v o) = filter P o.
Proof.
  intros Hk%obj_has_false Hn. unfold obj_set. rewrite Hk.
  destruct (array_index k).
  - now apply filter_insert_index.
  - rewrite filter_app, filter_cons. destruct (decide _); [contradiction|].
    apply app_nil_r.
Qed.

Lemma keys_filter_elem k (o : obj V) : k ∈ keys (filter P o) -> k ∈ keys o.
Proof.
  unfold keys. rewrite !list_elem_of_In, !in_map_iff.
  intros ([k' v] & <- & Hin). exists (k', v). split; [reflexivity|].
  apply list_elem_of_In. apply list_elem_of_In in Hin.
  now apply list_elem_of_filter in Hin as [_ ?].
Qed.

Lemma wf_obj_filter (o : obj V) : wf_obj o -> wf_obj (filter P o).
Proof.
  intros [Hnd Hs]. induction o as [|[k v] r IH]; [split; constructor|].
  simpl in Hnd, Hs. apply NoDup_cons in Hnd as [Hk Hnd].
  apply StronglySorted_cons in Hs as [Hall Hs].
  destruct (IH Hnd Hs) as [IH1 IH2].
  rewrite filter_cons. destruct (decide _); [|split; assumption].
  split; simpl.
  - apply NoDup_cons. split; [|assumption].
    intros Hin. apply Hk. now apply keys_filter_elem.
  - apply StronglySorted_cons. split; [|assumption].
    apply Forall_forall. intros x Hx. rewrite Forall_forall in Hall.
    apply Hall. now apply keys_filter_elem.
Qed.

Lemma obj_get_filter k (o : obj V) :
  NoDup (keys o) ->
  obj_get k (filter P o) =
  match obj_get k o with
  | Some v => if decide (P (k, v)) then Some v else None
  | None => None
  end.
Proof.
  induction o as [|[k' v'] r IH]; [reflexivity|].
  simpl. intros [Hk Hnd]%NoDup_cons. rewrite filter_cons.
  destruct (String.eqb_spec k k') as [->|Hne].
  - destruct (decide (P (k', v'))).
    + simpl. now rewrite String.eqb_refl.
    + rewrite IH by assumption.
      apply obj_get_None in Hk. now rewrite Hk.
  - destruct (decide (P (k', v'))); [|now apply IH].
    simpl. apply String.eqb_neq in Hne. rewrite Hne. now apply IH.
Qed.

Lemma filter_twice (l : list (string * V)) : filter P (filter P l) = filter P l.
Proof.
  induction l as [|e r IH]; [reflexivity|].
  rewrite filter_cons. destruct (decide (P e)) as [He|]; [|assumption].
  rewrite filter_cons. destruct (decide (P e)); [|contradiction].
  now f_equal.
Qed.

End Filtering.

(** Setting again the pins that the written map already shows, and
    dropping the undefined ones again, changes nothing. *)
Lemma dropUndefined_spread_fixed (pins : obj (option string)) :
  forall acc : obj (option string),
  NoDup (keys pins) ->
  (forall k v, (k, v) ∈ pins ->
     obj_get k acc = Some v \/ (v = None /\ obj_get k acc = None)) ->
  dropUndefined (spread pins acc) = dropUndefined acc.
Proof.
  induction pins as [|[k v] r IH]; intros acc Hnd H; [reflexivity|].
  simpl in Hnd. apply NoDup_cons in Hnd as [Hk Hnd].
  rewrite spread_cons.
  destruct (H k v) as [Hget|[-> Hget]]; [left| |].
  - rewrite obj_set_same by assumption. apply IH; [assumption|].
    intros k' v' Hin. apply H. now right.
  - rewrite IH; [| assumption |].
    + unfold dropUndefined. apply filter_set_new.
      * now apply obj_get_None.
      * simpl. intros [? [=]].
    + intros k' v' Hin. rewrite obj_get_set.
      destruct (String.eqb_spec k' k) as [->|Hne].
      * exfalso. apply Hk. eapply elem_of_keys, Hin.
      * apply H. now right.
Qed.

Lemma newResolutions_again existing dev :
  dropUndefined
    (newResolutions (Some (dropUndefined (newResolutions existing dev))) dev) =
  dropUndefined (newResolutions existing dev).
Proof.
  set (r1 := newResolutions existing dev).
  assert (wf_obj r1) as Hwf.
  { unfold r1. rewrite newResolutions_spread.
    apply wf_obj_spread, wf_obj_spread, wf_obj_nil. }
  rewrite newResolutions_spread. cbn [or_empty].
  rewrite spread_wf by now apply wf_obj_filter.
  rewrite dropUndefined_spread_fixed.
  - apply filter_twice.
  - rewrite keys_pinEntries. apply NoDup_pinKeys.
  - intros k v Hin.
    assert (obj_get k r1 = Some v) as Hr.
    { unfold r1. rewrite newResolutions_spread.
      rewrite obj_get_spread_NoDup
        by (rewrite keys_pinEntries; apply NoDup_pinKeys).
      rewrite (In_obj_get k v); [reflexivity| |assumption].
      rewrite keys_pinEntries. apply NoDup_pinKeys. }
    unfold dropUndefined. rewrite obj_get_filter by apply Hwf.
    rewrite Hr. simpl. destruct v as [s|].
    + left. destruct (decide _) as [|Hn]; [reflexivity|].
      exfalso. apply Hn. now exists s.
    + right. split; [reflexivity|].
      destruct (decide _) as [[? [=]]|]; reflexivity.
Qed.

(** The manifest is a fixed point of update-and-write, as long as a run
    with pnpm is not followed by a run with Yarn. *)
Lemma written_update_again peer pf (y1 y2 : bool) m :
  (y1 = false -> y2 = false) ->
  written (updateManifest peer pf y2 (written (updateManifest peer pf y1 m))) =
  written (updateManifest peer pf y1 m).
Proof.
  intros Hy. unfold written, updateManifest. cbn [dependencies devDependencies
    resolutions rest].
  rewrite (mergeDevDependencies_again peer pf m) by reflexivity.
  f_equal.
  destruct y1, y2; cbn [option_map].
  - f_equal. apply newResolutions_again.
  - f_equal. apply filter_twice.
  - discriminate Hy; reflexivity.
  - destruct (resolutions m); cbn [option_map]; [|reflexivity].
    f_equal. apply filter_twice.
Qed.

(** ** Lines *)

#[local] Arguments String.append : simpl nomatch.

Lemma append_nil_r s : String.append s EmptyString = s.
Proof. induction s as [|c r IH]; simpl; [reflexivity|now rewrite IH]. Qed.

Lemma append_assoc s1 s2 s3 :
  String.append (String.append s1 s2) s3 = String.append s1 (String.append s2 s3).
Proof. induction s1 as [|c r IH]; simpl; [reflexivity|now rewrite IH]. Qed.

Lemma split_LF_nonempty s : split_LF s <> [].
Proof.
  destruct s as [|c r]; simpl; [discriminate|].
  destruct (Ascii.eqb c LF); [discriminate|].
  destruct (split_LF r); discriminate.
Qed.

Lemma join_LF_cons x l :
  l <> [] -> join_LF (x :: l) = String.append x (String LF (join_LF l)).
Proof. destruct l; [congruence|reflexivity]. Qed.

(** Splitting loses nothing. *)
Lemma join_split s : join_LF (split_LF s) = s.
Proof.
  induction s as [|c r IH]; [reflexivity|].
  cbn [split_LF]. destruct (Ascii.eqb_spec c LF) as [->|Hne].
  - rewrite join_LF_cons by apply split_LF_nonempty. simpl. now rewrite IH.
  - pose proof (split_LF_nonempty r) as Hn.
    destruct (split_LF r) as [|l ls]; [congruence|].
    destruct ls; cbn [join_LF String.append] in *; f_equal; exact IH.
Qed.

Lemma split_no_LF s : Forall (fun l => has_LF l = false) (split_LF s).
Proof.
  induction s as [|c r IH]; [repeat constructor|].
  cbn [split_LF]. destruct (Ascii.eqb_spec c LF) as [->|Hne].
  - constructor; [reflexivity|assumption].
  - destruct (split_LF r) as [|l ls]; [repeat constructor; simpl|].
    + apply Ascii.eqb_neq in Hne. now rewrite Hne.
    + apply Forall_cons in IH as [Hl Hls]. constructor; [|assumption].
      simpl. apply Ascii.eqb_neq in Hne. now rewrite Hne.
Qed.

Lemma split_LF_line x : has_LF x = false -> split_LF x = [x].
Proof.
  induction x as [|c r IH]; [reflexivity|].
  simpl. intros [Hc Hr]%orb_false_iff. rewrite Hc, IH by assumption.
  reflexivity.
Qed.

Lemma split_LF_append x rest :
  has_LF x = false ->
  split_LF (String.append x (String LF rest)) = x :: split_LF rest.
Proof.
  induction x as [|c r IH]; [reflexivity|].
  simpl. intros [Hc Hr]%orb_false_iff. rewrite Hc, IH by assumption.
  reflexivity.
Qed.

(** Joining lines and splitting again gives the lines. *)
Lemma split_join l :
  l <> [] -> Forall (fun x => has_LF x = false) l ->
  split_LF (join_LF l) = l.
Proof.
  induction l as [|x r IH]; [congruence|]. intros _ Hall.
  apply Forall_cons in Hall as [Hx Hr].
  destruct r as [|y r'].
  - simpl. now apply split_LF_line.
  - rewrite join_LF_cons by discriminate.
    rewrite split_LF_append by assumption.
    f_equal. apply IH; [discriminate|assumption].
Qed.

Lemma join_LF_snoc l x :
  l <> [] ->
  join_LF (l ++ [x]) = String.append (join_LF l) (String LF x).
Proof.
  induction l as [|y r IH]; [congruence|]. intros _.
  destruct r as [|z r'].
  - reflexivity.
  - change ((y :: z :: r') ++ [x]) with (y :: ((z :: r') ++ [x])).
    rewrite join_LF_cons by (destruct r'; discriminate).
    rewrite IH by discriminate.
    rewrite (join_LF_cons y (z :: r')) by discriminate.
    rewrite append_assoc. reflexivity.
Qed.

Lemma ends_with_LF_append s t :
  t <> EmptyString -> ends_with_LF (String.append s t) = ends_with_LF t.
Proof.
  intros Ht. induction s as [|c r IH]; [reflexivity|].
  simpl. destruct (String.append r t) eqn:E; [|exact IH].
  destruct r; simpl in E; [congruence|discriminate].
Qed.

Lemma ends_with_LF_newline s : ends_with_LF (String.append s newline) = true.
Proof. rewrite ends_with_LF_append; [reflexivity|discriminate]. Qed.

(** The last line is empty exactly when the text is empty or ends with a
    line feed. *)
Lemma last_split_LF s :
  last (split_LF s) = Some EmptyString <->
  s = EmptyString \/ ends_with_LF s = true.
Proof.
  induction s as [|c r IH].
  - simpl. split; [now left|reflexivity].
  - cbn [split_LF ends_with_LF].
    pose proof (split_LF_nonempty r) as Hn.
    destruct (Ascii.eqb_spec c LF) as [->|Hne].
    + destruct (split_LF r) as [|l ls] eqn:E; [congruence|].
      rewrite last_cons_cons, IH.
      destruct r; [split; intros _; [now right|now left]|].
      split; [intros [[=]|?]; now right | intros [[=]|?]; now right].
    + destruct (split_LF r) as [|l ls] eqn:E; [congruence|].
      destruct ls as [|l2 ls'].
      * simpl. destruct r as [|c' r'].
        -- split; [discriminate|]. intros [[=]|[=]].
        -- split; [discriminate|]. intros [[=]|H].
           assert (last [l] = Some EmptyString) as Hl
             by (apply IH; now right).
           simpl in Hl. injection Hl as ->.
           assert (join_LF (split_LF (String c' r')) = String c' r') as Hj
             by apply join_split.
           rewrite E in Hj. discriminate Hj.
      * rewrite last_cons_cons.
        change (last (l2 :: ls')) with (last (l :: l2 :: ls')).
        rewrite last_cons_cons in IH. rewrite IH.
        destruct r as [|c' r']; [discriminate E|].
        split; [intros [[=]|?]; now right | intros [[=]|?]; now right].
Qed.

(** ** The ignore list *)

Lemma includes_app x l1 l2 : includes x (l1 ++ l2) = includes x l1 || includes x l2.
Proof. unfold includes. apply existsb_app. Qed.

(** The loop appends the patterns that are missing, in their order. *)
Lemma addIgnorePaths_eq lines :
  addIgnorePaths lines =
  lines ++ (if includes ".eslintcache" lines then [] else [".eslintcache"])
        ++ (if includes "*.tsbuildinfo" lines then [] else ["*.tsbuildinfo"]).
Proof.
  unfold addIgnorePaths, requiredIgnorePaths. cbn [fold_left].
  destruct (includes ".eslintcache" lines) eqn:E1.
  - destruct (includes "*.tsbuildinfo" lines); simpl; now rewrite ?app_nil_r.
  - rewrite includes_app. cbn [includes existsb orb].
    change (String.eqb "*.tsbuildinfo" ".eslintcache") with false.
    rewrite !orb_false_r.
    destruct (includes "*.tsbuildinfo" lines); simpl;
      now rewrite <- ?app_assoc.
Qed.

Lemma includes_addIgnorePaths lines p :
  p ∈ requiredIgnorePaths -> includes p (addIgnorePaths lines) = true.
Proof.
  rewrite addIgnorePaths_eq. unfold requiredIgnorePaths.
  rewrite !includes_app.
  intros [->|[->|[]%elem_of_nil]%elem_of_cons]%elem_of_cons.
  - destruct (includes ".eslintcache" lines),
      (includes "*.tsbuildinfo" lines); reflexivity.
  - destruct (includes ".eslintcache" lines),
      (includes "*.tsbuildinfo" lines); reflexivity.
Qed.

Lemma addIgnorePaths_included lines :
  includes ".eslintcache" lines = true ->
  includes "*.tsbuildinfo" lines = true ->
  addIgnorePaths lines = lines.
Proof. intros H1 H2. rewrite addIgnorePaths_eq, H1, H2. now rewrite !app_nil_r. Qed.

Lemma addIgnorePaths_nonempty lines : addIgnorePaths lines <> [].
Proof.
  intros H. pose proof (includes_addIgnorePaths lines ".eslintcache") as Hi.
  rewrite H in Hi. discriminate Hi. left.
Qed.

Lemma addIgnorePaths_no_LF lines :
  Forall (fun x => has_LF x = false) lines ->
  Forall (fun x => has_LF x = false) (addIgnorePaths lines).
Proof.
  intros H. rewrite addIgnorePaths_eq.
  repeat apply Forall_app_2; [assumption| |].
  - destruct (includes _ _); repeat constructor.
  - destruct (includes _ _); repeat constructor.
Qed.

Lemma oldLines_no_LF old :
  Forall (fun x => has_LF x = false)
    (match old with Some text => split_LF text | None => [] end).
Proof. destruct old; [apply split_no_LF|constructor]. Qed.

(** Writing the text of lines that already hold both patterns and reading
    it back gives the same text. *)
Lemma gitignoreText_again lines :
  lines <> [] -> Forall (fun x => has_LF x = false) lines ->
  includes ".eslintcache" lines = true ->
  includes "*.tsbuildinfo" lines = true ->
  newGitignore (Some (gitignoreText lines)) = gitignoreText lines.
Proof.
  intros Hne Hall H1 H2. unfold newGitignore.
  assert (Hcase : last lines = Some EmptyString \/ last lines <> Some EmptyString)
    by (destruct (decide (last lines = Some EmptyString)); auto).
  destruct Hcase as [Hl|Hl].
  - assert (gitignoreText lines = join_LF lines) as ->.
    { unfold gitignoreText. rewrite Hl. apply append_nil_r. }
    rewrite split_join by assumption.
    rewrite addIgnorePaths_included by assumption.
    unfold gitignoreText. rewrite Hl. apply append_nil_r.
  - assert (gitignoreText lines = join_LF (lines ++ [EmptyString])) as Ht.
    { unfold gitignoreText. rewrite join_LF_snoc by assumption.
      destruct (last lines) as [[|? ?]|]; try reflexivity. congruence. }
    rewrite Ht. rewrite split_join.
    + rewrite addIgnorePaths_included
        by (rewrite includes_app, ?H1, ?H2; reflexivity).
      unfold gitignoreText at 1. rewrite last_snoc. apply append_nil_r.
    + now destruct lines.
    + apply Forall_app_2; [assumption|repeat constructor].
Qed.

(** The ignore list written by one run is what the next run writes. *)
Lemma newGitignore_again old :
  newGitignore (Some (newGitignore old)) = newGitignore old.
Proof.
  unfold newGitignore at 2 3.
  apply gitignoreText_again.
  - apply addIgnorePaths_nonempty.
  - apply addIgnorePaths_no_LF, oldLines_no_LF.
  - apply includes_addIgnorePaths. left.
  - apply includes_addIgnorePaths. right. left.
Qed.

Example gitignore_twice :
  let text := String.concat newline ["node_modules"; ".eslintcache"; ""; ""] in
  newGitignore (Some text) = String.concat newline
    ["node_modules"; ".eslintcache"; ""; ""; "*.tsbuildinfo"; ""].
Proof. reflexivity. Qed.

(** ** The template loop *)

Section Templates.
Variables (E : environment) (pd : obj string).

Lemma writeConfigFile_lookup fs t name :
  writeConfigFile E pd fs t !! name =
  match fs !! name with
  | Some text => Some text
  | None =>
      if String.eqb (fst t) name
      then if (String.eqb name "stylelint.config.cjs" && negb (usesStylelint pd))
              || String.eqb name "package.json"
              || negb (writable E name)
           then None else snd t
      else None
  end.
Proof.
  destruct t as [n c]. unfold writeConfigFile, existsSync. cbn [fst snd].
  destruct (String.eqb_spec n name) as [->|Hne].
  - destruct (String.eqb name "stylelint.config.cjs" && negb (usesStylelint pd));
      cbn [orb]; [now destruct (fs !! name)|].
    destruct (String.eqb name "package.json");
      cbn [orb]; [now destruct (fs !! name)|].
    destruct (fs !! name) as [text|] eqn:Hf.
    + rewrite bool_decide_eq_true_2 by eauto. now rewrite Hf.
    + rewrite bool_decide_eq_false_2 by (intros [? [=]]).
      cbn [orb].
      destruct (writable E name), c as [text|]; cbn [negb];
        rewrite ?Hf; try reflexivity.
      apply lookup_insert_eq.
  - assert (forall text, <[n:=text]> fs !! name = fs !! name) as Hins
      by (intros; now apply lookup_insert_ne).
    destruct (_ && _); [now destruct (fs !! name)|].
    destruct (_ || _); [now destruct (fs !! name)|].
    destruct c; [destruct (writable E n)|]; rewrite ?Hins;
      now destruct (fs !! name).
Qed.

Lemma writeConfigFiles_fold ts fs name :
  fold_left (writeConfigFile E pd) ts fs !! name =
  match fs !! name with
  | Some text => Some text
  | None =>
      if (String.eqb name "stylelint.config.cjs" && negb (usesStylelint pd))
         || String.eqb name "package.json"
         || negb (writable E name)
      then None else firstText name ts
  end.
Proof.
  revert fs. induction ts as [|t r IH]; intros fs.
  - simpl. destruct (fs !! name); [reflexivity|]. now destruct (_ || _).
  - cbn [fold_left firstText]. rewrite IH, writeConfigFile_lookup.
    destruct (fs !! name); [reflexivity|].
    destruct (String.eqb (fst t) name); [|reflexivity].
    destruct (_ || _); [reflexivity|].
    now destruct (snd t).
Qed.

(** A file that is there stays; elsewhere the loop writes the template. *)
Lemma writeConfigFiles_lookup fs name :
  writeConfigFiles E pd fs !! name =
  match fs !! name with
  | Some text => Some text
  | None => newConfigFile E pd name
  end.
Proof. apply writeConfigFiles_fold. Qed.

Lemma firstText_names name ts :
  name ∉ map fst ts -> firstText name ts = None.
Proof.
  induction ts as [|t r IH]; [reflexivity|].
  simpl. intros [Hne Hr]%not_elem_of_cons.
  destruct (String.eqb_spec (fst t) name); [congruence|auto].
Qed.

Lemma newConfigFile_names name :
  name ∉ templateFileNames E -> newConfigFile E pd name = None.
Proof.
  intros H. unfold newConfigFile. destruct (_ || _); [reflexivity|].
  now apply firstText_names.
Qed.

(** A second pass of the loop over its own result changes nothing. *)
Lemma writeConfigFiles_again fs gs name :
  gs !! name = writeConfigFiles E pd fs !! name ->
  writeConfigFiles E pd gs !! name = gs !! name.
Proof.
  intros H. rewrite writeConfigFiles_lookup.
  destruct (gs !! name) eqn:Hg; [reflexivity|].
  rewrite writeConfigFiles_lookup in H.
  destruct (fs !! name); [discriminate|]. now symmetry.
Qed.

End Templates.

(** ** The legacy config *)

Lemma pruneLegacyConfig_other E fs name :
  name <> ".eslintrc.json" -> pruneLegacyConfig E fs !! name = fs !! name.
Proof.
  intros Hne. unfold pruneLegacyConfig.
  destruct (fs !! ".eslintrc.json"); [|reflexivity].
  destruct (String.eqb _ _); [|reflexivity].
  destruct (writable E _); [|reflexivity].
  now apply lookup_delete_ne.
Qed.

(** ** The whole script *)

(** The stages of a run that ends well. *)
Lemma run_Ok E p p1 :
  run E p = Ok p1 ->
  exists m fs1,
    packageJson p = Some m
    /\ writable E "package.json" = true
    /\ writable E ".gitignore" = true
    /\ runInstall E
         (String.append
            (if negb (negb (existsSync (files p) "pnpm-lock.yaml"))
             then "pnpm" else "yarn") " install")
         (written (updateManifest (peerDependencies E) (platform E)
                     (negb (existsSync (files p) "pnpm-lock.yaml")) m))
         (files p) = Some fs1
    /\ packageJson p1 =
       Some (written (updateManifest (peerDependencies E) (platform E)
                        (negb (existsSync (files p) "pnpm-lock.yaml")) m))
    /\ files p1 =
       pruneLegacyConfig E
         (<[".gitignore" :=
              newGitignore
                (writeConfigFiles E (or_empty (dependencies m)) fs1
                   !! ".gitignore")]>
            (writeConfigFiles E (or_empty (dependencies m)) fs1)).
Proof.
  unfold run. destruct (packageJson p) as [m|]; [|discriminate].
  destruct (writable E "package.json"); cbn [negb]; [|discriminate].
  destruct (runInstall E _ _ _) as [fs1|] eqn:Hi; [|discriminate].
  cbn [mbind outcome_bind].
  destruct (templatesListed E); cbn [negb]; [|discriminate].
  unfold updateGitignore.
  destruct (writable E ".gitignore"); [|discriminate].
  intros [= <-]. exists m, fs1. cbn [packageJson files]. auto 10.
Qed.

(** A run that ends well has listed the templates. *)
Lemma run_Ok_listed E p p1 : run E p = Ok p1 -> templatesListed E = true.
Proof.
  unfold run. destruct (packageJson p); [|discriminate].
  destruct (negb (writable E "package.json")); [discriminate|].
  destruct (runInstall E _ _ _); [|discriminate].
  cbn [mbind outcome_bind].
  destruct (templatesListed E); [reflexivity|discriminate].
Qed.

Lemma existsSync_lock fs :
  existsSync fs "pnpm-lock.yaml" = true <-> is_Some (fs !! "pnpm-lock.yaml").
Proof.
  unfold existsSync.
  change (String.eqb "pnpm-lock.yaml" "package.json") with false.
  cbn [orb]. apply bool_decide_eq_true.
Qed.

(** After a run that ends well, the files at the names other than the two
    that the later stages own are those of the template loop. *)
Lemma run_files_other E (p1 : project) m fs1 name :
  files p1 =
    pruneLegacyConfig E
      (<[".gitignore" :=
           newGitignore
             (writeConfigFiles E (or_empty (dependencies m)) fs1 !! ".gitignore")]>
         (writeConfigFiles E (or_empty (dependencies m)) fs1)) ->
  name <> ".gitignore" -> name <> ".eslintrc.json" ->
  files p1 !! name =
  writeConfigFiles E (or_empty (dependencies m)) fs1 !! name.
Proof.
  intros -> Hg Hl. rewrite pruneLegacyConfig_other by assumption.
  now apply lookup_insert_ne.
Qed.

Lemma run_files_gitignore E (p1 : project) m fs1 :
  files p1 =
    pruneLegacyConfig E
      (<[".gitignore" :=
           newGitignore
             (writeConfigFiles E (or_empty (dependencies m)) fs1 !! ".gitignore")]>
         (writeConfigFiles E (or_empty (dependencies m)) fs1)) ->
  files p1 !! ".gitignore" =
  Some (newGitignore
          (writeConfigFiles E (or_empty (dependencies m)) fs1 !! ".gitignore")).
Proof.
  intros ->. rewrite pruneLegacyConfig_other by discriminate.
  apply lookup_insert_eq.
Qed.

(** C1. Idempotence of the pipeline: a second run on the directory that a
    first run left either stops on the package manager, or it leaves the
    written manifest (with its devDependencies and resolutions), the
    content of the ignore list and every file named like a template exactly
    as the first run left them.  The package manager is assumed to leave
    those files alone and not to remove the pnpm lock file, and the
    templates not to hold the legacy config. *)
Theorem pipeline_idempotent E p p1 :
  installKeeps E -> installKeepsPnpmLock E ->
  ".eslintrc.json" ∉ templateFileNames E ->
  run E p = Ok p1 ->
  match run E p1 with
  | Ok p2 =>
      packageJson p2 = packageJson p1
      /\ files p2 !! ".gitignore" = files p1 !! ".gitignore"
      /\ forall name, name ∈ templateFileNames E ->
           files p2 !! name = files p1 !! name
  | Throw e => e = InstallFailed
  end.
Proof.
  intros Hkeep Hlock Htpl Hrun.
  destruct (run_Ok _ _ _ Hrun) as (m & fs1 & Hm & Hwp & Hwg & Hi & Hm1 & Hf1).
  set (y1 := negb (existsSync (files p) "pnpm-lock.yaml")) in *.
  set (m1 := written (updateManifest (peerDependencies E) (platform E) y1 m)) in *.
  set (pd := or_empty (dependencies m)) in *.
  destruct (run E p1) as [p2|e] eqn:Hrun2.
  - destruct (run_Ok _ _ _ Hrun2)
      as (m' & gs1 & Hm' & _ & _ & Hi2 & Hm2 & Hf2).
    rewrite Hm1 in Hm'. injection Hm' as <-.
    change (or_empty (dependencies m1)) with pd in Hf2.
    assert (Hgi : gs1 !! ".gitignore" = files p1 !! ".gitignore")
      by (eapply Hkeep; [exact Hi2|now left]).
    assert (Hg1 := run_files_gitignore E p1 m fs1 Hf1). fold pd in Hg1.
    split; [|split].
    + rewrite Hm2, Hm1. f_equal. apply written_update_again.
      intros Hy. unfold y1 in Hy. apply negb_false_iff in Hy.
      apply negb_false_iff. apply existsSync_lock. apply existsSync_lock in Hy.
      rewrite (run_files_other E p1 m fs1) by (assumption || discriminate).
      fold pd. rewrite writeConfigFiles_lookup.
      destruct (Hlock _ _ _ _ Hi Hy) as [text ->]. eauto.
    + rewrite (run_files_gitignore E p2 m1 gs1 Hf2).
      change (or_empty (dependencies m1)) with pd.
      rewrite writeConfigFiles_lookup, Hgi, Hg1.
      f_equal. apply newGitignore_again.
    + intros name Hname.
      destruct (decide (name = ".gitignore")) as [->|Hng].
      * rewrite (run_files_gitignore E p2 m1 gs1 Hf2).
        change (or_empty (dependencies m1)) with pd.
        rewrite writeConfigFiles_lookup, Hgi, Hg1.
        f_equal. apply newGitignore_again.
      * assert (name <> ".eslintrc.json") as Hnl by congruence.
        rewrite (run_files_other E p2 m1 gs1) by assumption.
        change (or_empty (dependencies m1)) with pd.
        assert (gs1 !! name = files p1 !! name) as Hgs
          by (eapply Hkeep; [exact Hi2|now right]).
        rewrite <- Hgs. apply (writeConfigFiles_again E pd fs1).
        rewrite Hgs. now apply (run_files_other E p1 m fs1).
  - unfold run in Hrun2. rewrite Hm1 in Hrun2. rewrite Hwp in Hrun2.
    cbn [negb] in Hrun2.
    destruct (runInstall E _ _ (files p1)); cbn [mbind outcome_bind] in Hrun2;
      [|congruence].
    rewrite (run_Ok_listed _ _ _ Hrun) in Hrun2. cbn [negb] in Hrun2.
    unfold updateGitignore in Hrun2. rewrite Hwg in Hrun2. discriminate.
Qed.

Lemma run_sampleProject : run sampleEnvironment sampleProject = Ok sampleProjectAfter.
Proof. vm_compute. reflexivity. Qed.

Lemma pipeline_idempotent_witness :
  run sampleEnvironment sampleProject = Ok sampleProjectAfter
  /\ match run sampleEnvironment sampleProjectAfter with
     | Ok p2 =>
         packageJson p2 = packageJson sampleProjectAfter
         /\ files p2 !! ".gitignore" = files sampleProjectAfter !! ".gitignore"
         /\ forall name, name ∈ templateFileNames sampleEnvironment ->
              files p2 !! name = files sampleProjectAfter !! name
     | Throw e => e = InstallFailed
     end.
Proof.
  split; [vm_compute; reflexivity|].
  apply (pipeline_idempotent sampleEnvironment sampleProject sampleProjectAfter).
  - intros cmd m fs fs' name H _. cbn in H. injection H as <-. reflexivity.
  - intros cmd m fs fs' H Hs. cbn in H. injection H as <-. exact Hs.
  - compute_done.
  - vm_compute. reflexivity.
Defined.

(** ** The requirement table *)

Lemma obj_get_set_latest k names (t : obj string) :
  obj_get k (set_latest names t) =
  if bool_decide (k ∈ names) then Some "latest" else obj_get k t.
Proof.
  unfold set_latest. revert t.
  induction names as [|n ns IH]; intros t; [reflexivity|].
  cbn [fold_left]. rewrite IH, obj_get_set.
  destruct (String.eqb_spec k n) as [->|Hne].
  - rewrite (bool_decide_eq_true_2 (n ∈ n :: ns)) by left.
    now destruct (bool_decide (n ∈ ns)).
  - destruct (decide (k ∈ ns)) as [Hin|Hnin].
    + rewrite !bool_decide_eq_true_2; [reflexivity|now right|assumption].
    + rewrite !bool_decide_eq_false_2; [reflexivity| |assumption].
      intros [?|?]%elem_of_cons; contradiction.
Qed.

(** What the table says of a name after the two conditional blocks. *)
Lemma obj_get_newDevDependenciesToInstall k peer pf pd :
  obj_get k (newDevDependenciesToInstall peer pf pd) =
  if usesStylelint pd && bool_decide (k ∈ stylelintPackages)
  then Some "latest"
  else if usesSafeql pf pd && bool_decide (k ∈ safeqlPackages)
       then Some "latest"
       else obj_get k peer.
Proof.
  unfold newDevDependenciesToInstall.
  destruct (usesStylelint pd), (usesSafeql pf pd); cbn [andb];
    rewrite ?obj_get_set_latest;
    repeat destruct (bool_decide _); reflexivity.
Qed.

Lemma obj_has_nil {V} k : obj_has k (@nil (string * V)) = false.
Proof. reflexivity. Qed.

Lemma obj_has_mergedEntries k peer pf m :
  obj_has k (mergedEntries peer pf m) =
  obj_has k (newDevDependenciesToInstall peer pf (or_empty (dependencies m)))
  || obj_has k (or_empty (devDependencies m)).
Proof.
  unfold mergedEntries. rewrite !obj_has_spread, obj_has_nil.
  now rewrite orb_false_r.
Qed.

(** C5. Platform exclusion: on [win32], with [postgres] among the
    dependencies, the SafeQL block is not taken: the table says of
    [@ts-safeql/eslint-plugin] and [libpg-query] what the peer dependencies
    say, and the resulting devDependencies hold such a name only if the peer
    dependencies or the old devDependencies did. *)
Theorem safeql_excluded_on_win32 peer m k :
  obj_has "postgres" (or_empty (dependencies m)) = true ->
  k ∈ safeqlPackages ->
  usesSafeql "win32" (or_empty (dependencies m)) = false
  /\ obj_get k (newDevDependenciesToInstall peer "win32"
                  (or_empty (dependencies m))) = obj_get k peer
  /\ obj_has k (mergeDevDependencies peer "win32" m) =
     obj_has k peer || obj_has k (or_empty (devDependencies m)).
Proof.
  intros _ Hk.
  assert (usesSafeql "win32" (or_empty (dependencies m)) = false) as Hs.
  { unfold usesSafeql. rewrite String.eqb_refl. apply andb_false_r. }
  assert (obj_get k (newDevDependenciesToInstall peer "win32"
                       (or_empty (dependencies m))) = obj_get k peer) as Hg.
  { rewrite obj_get_newDevDependenciesToInstall, Hs. cbn [andb].
    rewrite (bool_decide_eq_false_2 (k ∈ stylelintPackages)).
    - now rewrite andb_false_r.
    - revert Hk. unfold safeqlPackages, stylelintPackages.
      rewrite !elem_of_cons, !elem_of_nil.
      intros [->|[->|[]]]; intros H; repeat destruct H as [H|H];
        try discriminate H; exact H. }
  repeat split; [assumption..|].
  rewrite obj_has_mergeDevDependencies, obj_has_mergedEntries.
  unfold obj_has at 1. now rewrite Hg.
Qed.

Lemma safeql_excluded_on_win32_witness :
  obj_has "postgres" [("postgres", "^3.0.0")] = true
  /\ obj_has "libpg-query"
       (mergeDevDependencies samplePeerDependencies "win32"
          (Manifest (Some [("postgres", "^3.0.0")]) None None [])) = false.
Proof.
  split; [reflexivity|].
  apply (safeql_excluded_on_win32 samplePeerDependencies
           (Manifest (Some [("postgres", "^3.0.0")]) None None [])
           "libpg-query"); [reflexivity|].
  unfold safeqlPackages. right. left.
Defined.

(** C10. The runtime [dependencies] are only read: the manifest that a run
    writes has the [dependencies] of the manifest it read, absent when they
    were absent, and the other members likewise; absent dependencies count
    as the empty map when the devDependencies are computed. *)
Theorem dependencies_untouched E p p1 m :
  packageJson p = Some m -> run E p = Ok p1 ->
  exists m1,
    packageJson p1 = Some m1
    /\ dependencies m1 = dependencies m
    /\ rest m1 = rest m
    /\ (dependencies m = None ->
        devDependencies m1 =
        Some (mergeDevDependencies (peerDependencies E) (platform E)
                (Manifest (Some []) (devDependencies m) (resolutions m)
                   (rest m)))).
Proof.
  intros Hm Hrun.
  destruct (run_Ok _ _ _ Hrun) as (m' & fs1 & Hm' & _ & _ & _ & Hm1 & _).
  rewrite Hm in Hm'. injection Hm' as <-.
  eexists. split; [exact Hm1|]. cbn [written updateManifest dependencies rest
    devDependencies].
  repeat split. intros Hnone. f_equal.
  unfold mergeDevDependencies, mergedEntries. now rewrite Hnone.
Qed.

Lemma dependencies_untouched_witness :
  exists m1,
    packageJson sampleProjectAfter = Some m1
    /\ dependencies m1 = Some [("next", "^13.0.0"); ("react", "^18.2.0")].
Proof.
  destruct (dependencies_untouched sampleEnvironment sampleProject
              sampleProjectAfter
              {| dependencies := Some [("next", "^13.0.0"); ("react", "^18.2.0")];
                 devDependencies :=
                   Some [("prettier", "^3.0.0"); ("eslint", "^8.0.0")];
                 resolutions := None;
                 rest := [("name", "my-app")] |})
    as (m1 & H1 & H2 & _).
  - reflexivity.
  - vm_compute. reflexivity.
  - exists m1. split; [exact H1|exact H2].
Defined.



(** Without a [.gitignore] the updater does not fail; it writes the two
    patterns, one per line, each followed by a line feed. *)
Lemma updateGitignore_missing E fs :
  fs !! ".gitignore" = None -> writable E ".gitignore" = true ->
  let text := String.append ".eslintcache"
                (String.append newline (String.append "*.tsbuildinfo" newline)) in
  updateGitignore E fs = Ok (<[".gitignore" := text]> fs)
  /\ one_trailing_LF text.
Proof.
  intros Hf Hw text. unfold updateGitignore. rewrite Hw, Hf. split.
  - reflexivity.
  - exists (String.append ".eslintcache" (String.append newline "*.tsbuildinfo")).
    split; reflexivity.
Qed.

Example updateGitignore_missing_sample :
  updateGitignore sampleEnvironment ∅ =
  Ok {[ ".gitignore" :=
          String.append ".eslintcache"
            (String.append newline (String.append "*.tsbuildinfo" newline)) ]}.
Proof. apply (updateGitignore_missing sampleEnvironment ∅); reflexivity. Qed.

(** ** The trailing newline of the ignore list *)

Lemma append_newline_inj t1 t2 :
  String.append t1 newline = String.append t2 newline -> t1 = t2.
Proof.
  revert t2. induction t1 as [|c r IH]; intros [|c2 r2]; simpl;
    [reflexivity| | |].
  - intros [= <- H]. destruct r2; discriminate H.
  - intros [= -> H]. destruct r; discriminate H.
  - intros [= -> H]. f_equal. now apply IH.
Qed.

Lemma gitignoreText_empty_last lines :
  last lines = Some EmptyString -> gitignoreText lines = join_LF lines.
Proof. intros H. unfold gitignoreText. rewrite H. apply append_nil_r. Qed.

Lemma gitignoreText_other_last lines :
  last lines <> Some EmptyString ->
  gitignoreText lines = String.append (join_LF lines) newline.
Proof.
  intros H. unfold gitignoreText.
  destruct (last lines) as [[|? ?]|]; congruence.
Qed.

(** When a pattern is missing, the new lines end with a pattern. *)
Lemma addIgnorePaths_last lines :
  includes ".eslintcache" lines && includes "*.tsbuildinfo" lines = false ->
  exists front p, addIgnorePaths lines = front ++ [p] /\ p ∈ requiredIgnorePaths.
Proof.
  rewrite addIgnorePaths_eq. unfold requiredIgnorePaths.
  destruct (includes ".eslintcache" lines), (includes "*.tsbuildinfo" lines);
    cbn [andb]; intros H; try discriminate H.
  - exists lines, "*.tsbuildinfo". split; [reflexivity|right; left].
  - exists lines, ".eslintcache". rewrite app_nil_r. split; [reflexivity|left].
  - exists (lines ++ [".eslintcache"]), "*.tsbuildinfo".
    rewrite <- app_assoc. split; [reflexivity|right; left].
Qed.

Lemma join_LF_last_pattern front p :
  p ∈ requiredIgnorePaths -> ends_with_LF (join_LF (front ++ [p])) = false.
Proof.
  intros Hp.
  assert (ends_with_LF p = false /\ p <> EmptyString) as [He Hn].
  { revert Hp. unfold requiredIgnorePaths.
    rewrite !elem_of_cons, elem_of_nil.
    intros [->|[->|[]]]; split; (reflexivity || discriminate). }
  destruct front as [|x r].
  - exact He.
  - rewrite join_LF_snoc by discriminate.
    rewrite ends_with_LF_append by discriminate.
    destruct p; [congruence|exact He].
Qed.

(** C7, as the code has it.  The text written is the lines joined with line
    feeds, with one more line feed when the last line is not empty; so it
    always ends with a line feed.  When a pattern was missing it ends with
    exactly one.  When both patterns were there the old text is kept and
    only gets a line feed if it did not end with one: an old text that ends
    with several line feeds keeps them. *)
Theorem gitignore_trailing_newline old :
  let lines := match old with Some text => split_LF text | None => [] end in
  newGitignore old =
    String.append (join_LF (addIgnorePaths lines))
      (if bool_decide (last (addIgnorePaths lines) = Some EmptyString)
       then EmptyString else newline)
  /\ ends_with_LF (newGitignore old) = true
  /\ (includes ".eslintcache" lines && includes "*.tsbuildinfo" lines = false ->
      one_trailing_LF (newGitignore old))
  /\ (forall text, old = Some text ->
      includes ".eslintcache" lines && includes "*.tsbuildinfo" lines = true ->
      newGitignore old =
      String.append text (if ends_with_LF text then EmptyString else newline)).
Proof.
  intros lines.
  assert (Hmissing :
    includes ".eslintcache" lines && includes "*.tsbuildinfo" lines = false ->
    one_trailing_LF (newGitignore old)).
  { intros H. destruct (addIgnorePaths_last lines H) as (front & p & HL & Hp).
    unfold newGitignore. fold lines. rewrite HL.
    rewrite gitignoreText_other_last.
    - eexists. split; [reflexivity|]. now apply join_LF_last_pattern.
    - rewrite last_snoc. intros [= ->]. revert Hp. unfold requiredIgnorePaths.
      rewrite !elem_of_cons, elem_of_nil. intros [|[|[]]]; discriminate. }
  assert (Hpresent : forall text, old = Some text ->
    includes ".eslintcache" lines && includes "*.tsbuildinfo" lines = true ->
    newGitignore old =
    String.append text (if ends_with_LF text then EmptyString else newline)).
  { intros text -> [H1 H2]%andb_true_iff. unfold newGitignore.
    fold lines. rewrite addIgnorePaths_included by assumption.
    subst lines. cbv beta iota in *.
    destruct (ends_with_LF text) eqn:He.
    - rewrite gitignoreText_empty_last by (apply last_split_LF; now right).
      now rewrite join_split, append_nil_r.
    - rewrite gitignoreText_other_last; [now rewrite join_split|].
      intros [->|Hl]%last_split_LF; [discriminate H1|congruence]. }
  split; [|split; [|split; assumption]].
  - unfold newGitignore, gitignoreText. fold lines. f_equal.
    destruct (last (addIgnorePaths lines)) as [[|? ?]|];
      [rewrite bool_decide_eq_true_2 by reflexivity
      |rewrite bool_decide_eq_false_2 by discriminate
      |rewrite bool_decide_eq_false_2 by discriminate]; reflexivity.
  - destruct (includes ".eslintcache" lines && includes "*.tsbuildinfo" lines)
      eqn:Hc.
    + destruct old as [text|]; [|discriminate Hc].
      rewrite (Hpresent text eq_refl eq_refl).
      destruct (ends_with_LF text) eqn:He.
      * now rewrite append_nil_r.
      * apply ends_with_LF_newline.
    + destruct (Hmissing eq_refl) as (t & -> & _). apply ends_with_LF_newline.
Qed.

Lemma gitignore_trailing_newline_witness :
  one_trailing_LF (newGitignore (Some "node_modules"))
  /\ newGitignore (Some gitignoreWithBlankEnd) = gitignoreWithBlankEnd.
Proof.
  split.
  - apply (gitignore_trailing_newline (Some "node_modules")). reflexivity.
  - apply (gitignore_trailing_newline (Some gitignoreWithBlankEnd)
             : _ /\ _ /\ _ /\ _); reflexivity.
Defined.

(** C7, as stated, fails: an ignore list that has both patterns and ends
    with two line feeds is written back as it is. *)
Lemma gitignore_keeps_blank_end :
  ~ (forall old, one_trailing_LF (newGitignore old)).
Proof.
  intros H. destruct (H (Some gitignoreWithBlankEnd)) as (t & Ht & He).
  change (newGitignore (Some gitignoreWithBlankEnd))
    with (String.append
            (String.concat newline [".eslintcache"; "*.tsbuildinfo"; ""])
            newline) in Ht.
  apply append_newline_inj in Ht. subst t. discriminate He.
Qed.

(** ** Trimming *)

Lemma trimStart_split s :
  exists before, s = String.append before (trimStart s)
                 /\ all_whitespace before = true.
Proof.
  induction s as [|c r IH]; [now exists EmptyString|].
  simpl. destruct (is_whitespace c) eqn:Hc.
  - destruct IH as (b & Hb & Hw). exists (String c b). simpl.
    rewrite Hc, Hw. split; [now f_equal|reflexivity].
  - now exists EmptyString.
Qed.

Lemma trimEnd_split s :
  exists after, s = String.append (trimEnd s) after
                /\ all_whitespace after = true.
Proof.
  induction s as [|c r IH]; [now exists EmptyString|].
  destruct IH as (a & Ha & Hw). simpl.
  destruct (trimEnd r) as [|c' k] eqn:Hk.
  - simpl in Ha. subst a. destruct (is_whitespace c) eqn:Hc.
    + exists (String c r). simpl. now rewrite Hc, Hw.
    + exists r. now split.
  - exists a. simpl. split; [now f_equal|assumption].
Qed.

Lemma trimStart_whitespace before s :
  all_whitespace before = true ->
  trimStart (String.append before s) = trimStart s.
Proof.
  induction before as [|c r IH]; [reflexivity|].
  simpl. intros [Hc Hr]%andb_true_iff. rewrite Hc. now apply IH.
Qed.

Lemma trimEnd_whitespace after :
  all_whitespace after = true -> trimEnd after = EmptyString.
Proof.
  induction after as [|c r IH]; [reflexivity|].
  simpl. intros [Hc Hr]%andb_true_iff. now rewrite IH, Hc.
Qed.

Lemma trimEnd_append s after :
  all_whitespace after = true ->
  trimEnd (String.append s after) = trimEnd s.
Proof.
  intros Hw. induction s as [|c r IH]; simpl.
  - now apply trimEnd_whitespace.
  - now rewrite IH.
Qed.

(** [trim] gives the default config exactly on the default config with
    white space around it. *)
Lemma trim_default text :
  trim text = nextDefaultConfig <-> paddedDefaultConfig text.
Proof.
  split.
  - intros H. unfold trim in H.
    destruct (trimStart_split text) as (b & Hb & Hbw).
    destruct (trimEnd_split (trimStart text)) as (a & Ha & Haw).
    exists b, a. rewrite H in Ha. rewrite <- Ha. auto.
  - intros (b & a & -> & Hb & Ha). unfold trim.
    rewrite trimStart_whitespace by assumption.
    change (trimStart (String.append nextDefaultConfig a))
      with (String.append nextDefaultConfig a).
    now rewrite trimEnd_append.
Qed.

(** C9, as the code has it.  The legacy config is removed when its content
    is the default config, possibly with white space before or after it,
    and the file can be removed; it is left as it is when the content is
    anything else, and when the removal fails; and an absent or unreadable
    file is nothing to prune.  No other file is touched. *)
Theorem legacy_config_pruning E fs :
  (forall text, fs !! ".eslintrc.json" = Some text ->
     paddedDefaultConfig text -> writable E ".eslintrc.json" = true ->
     pruneLegacyConfig E fs = delete ".eslintrc.json" fs)
  /\ (forall text, fs !! ".eslintrc.json" = Some text ->
        ~ paddedDefaultConfig text -> pruneLegacyConfig E fs = fs)
  /\ (writable E ".eslintrc.json" = false -> pruneLegacyConfig E fs = fs)
  /\ (fs !! ".eslintrc.json" = None -> pruneLegacyConfig E fs = fs).
Proof.
  unfold pruneLegacyConfig. repeat split.
  - intros text -> Hp%trim_default Hw. now rewrite Hp, String.eqb_refl, Hw.
  - intros text -> Hp.
    destruct (String.eqb_spec (trim text) nextDefaultConfig) as [Ht|];
      [|reflexivity].
    exfalso. now apply Hp, trim_default.
  - intros ->. destruct (fs !! _); [|reflexivity].
    now destruct (String.eqb _ _).
  - now intros ->.
Qed.

Lemma legacy_config_pruning_witness :
  pruneLegacyConfig sampleEnvironment
    {[ ".eslintrc.json" := String.append nextDefaultConfig newline ]} = ∅
  /\ pruneLegacyConfig sampleEnvironment
       {[ ".eslintrc.json" := "{ }" ]} = {[ ".eslintrc.json" := "{ }" ]}.
Proof.
  split.
  - rewrite <- (delete_singleton_eq ".eslintrc.json"
                  (String.append nextDefaultConfig newline)).
    apply (legacy_config_pruning sampleEnvironment
             {[ ".eslintrc.json" := String.append nextDefaultConfig newline ]})
      with (text := String.append nextDefaultConfig newline).
    + vm_compute. reflexivity.
    + exists EmptyString, newline. repeat split; reflexivity.
    + reflexivity.
  - apply (legacy_config_pruning sampleEnvironment
             {[ ".eslintrc.json" := "{ }" ]}
           : _ /\ _ /\ _ /\ _) with (text := "{ }").
    + vm_compute. reflexivity.
    + intros Hp%trim_default. discriminate Hp.
Defined.

(** C9, as stated, fails: a default config followed by a line feed differs
    from the default config by one character, and is removed. *)
Lemma legacy_config_with_newline_removed :
  ~ (forall E fs text,
       fs !! ".eslintrc.json" = Some text -> text <> nextDefaultConfig ->
       pruneLegacyConfig E fs = fs).
Proof.
  intros H.
  specialize (H sampleEnvironment
                {[ ".eslintrc.json" := String.append nextDefaultConfig newline ]}
                (String.append nextDefaultConfig newline)).
  assert (pruneLegacyConfig sampleEnvironment
            {[ ".eslintrc.json" := String.append nextDefaultConfig newline ]}
          !! ".eslintrc.json" = None) as Hnone by (vm_compute; reflexivity).
  rewrite H in Hnone.
  - vm_compute in Hnone. discriminate Hnone.
  - vm_compute. reflexivity.
  - discriminate.
Qed.

(** ** Sorted keys *)

Lemma ascii_compare_refl c : Ascii.compare c c = Eq.
Proof. unfold Ascii.compare. apply N.compare_refl. Qed.

(** Between two plain keys, the order of the entry strings is the order of
    the keys. *)
Lemma entry_le_plain k1 : forall k2 v1 v2,
  after_comma k1 = true -> k1 <> k2 ->
  entry_le (k1, v1) (k2, v2) -> String.ltb k1 k2 = true.
Proof.
  unfold entry_le, entry_string, String.ltb. cbn [fst snd].
  induction k1 as [|c1 r1 IH]; intros [|c2 r2] v1 v2 Hp Hne; simpl.
  - congruence.
  - reflexivity.
  - apply andb_true_iff in Hp as [Hc%N.ltb_lt _].
    unfold Ascii.compare.
    change (N_of_ascii ",") with 44%N.
    destruct (N.compare_spec 44 (N_of_ascii c1)); [lia|discriminate|lia].
  - apply andb_true_iff in Hp as [_ Hp].
    rewrite (Ascii.compare_antisym c1 c2).
    destruct (Ascii.compare c2 c1) eqn:Hc; simpl;
      [|discriminate|reflexivity].
    apply Ascii.compare_eq_iff in Hc. subst c2.
    apply IH; [assumption|congruence].
Qed.

Lemma sorted_entries_keys_ascending (l : obj string) :
  NoDup (keys l) -> Forall (fun k => after_comma k = true) (keys l) ->
  StronglySorted entry_le l -> keys_ascending l.
Proof.
  unfold keys_ascending.
  induction l as [|[k v] r IH]; simpl; intros Hnd Hp Hs; [constructor|].
  apply NoDup_cons in Hnd as [Hk Hnd].
  apply Forall_cons in Hp as [Hpk Hp].
  apply StronglySorted_cons in Hs as [Hall Hs].
  apply StronglySorted_cons. split; [|now apply IH].
  apply Forall_forall. intros k' Hin.
  unfold keys in Hin. apply list_elem_of_In, in_map_iff in Hin
    as ([k2 v2] & <- & Hin%list_elem_of_In).
  rewrite Forall_forall in Hall.
  apply (entry_le_plain k k2 v v2); [assumption| |now apply Hall].
  intros ->. apply Hk. eapply elem_of_keys, Hin.
Qed.

Lemma nonindex_wf {V} (l : obj V) :
  NoDup (keys l) -> Forall (fun k => is_index k = false) (keys l) -> wf_obj l.
Proof.
  intros Hnd Hall. split; [assumption|].
  clear Hnd. induction (keys l) as [|k r IH]; [constructor|].
  apply Forall_cons in Hall as [_ Hall].
  apply StronglySorted_cons. split; [|auto].
  eapply Forall_impl; [exact Hall|].
  intros k' Hk'. apply prop_before_nonindex.
  unfold is_index in Hk'. now destruct (array_index k').
Qed.

(** When every key is plain, the merged devDependencies are in strict
    ascending order of their keys. *)
Lemma mergeDevDependencies_ascending peer pf m :
  Forall (fun k => plain_key k = true) (keys (mergedEntries peer pf m)) ->
  keys_ascending (mergeDevDependencies peer pf m).
Proof.
  intros Hp.
  set (s := Array_sort (mergedEntries peer pf m)).
  assert (keys s ≡ₚ keys (mergedEntries peer pf m)) as Hks
    by apply keys_perm, Array_sort_perm.
  assert (NoDup (keys s)) as Hnd by apply NoDup_sorted_merged.
  assert (Forall (fun k => plain_key k = true) (keys s)) as Hps
    by now rewrite Hks.
  assert (mergeDevDependencies peer pf m = s) as ->.
  { unfold mergeDevDependencies, Object_entries, Object_fromEntries. fold s.
    apply spread_wf, nonindex_wf; [assumption|].
    eapply Forall_impl; [exact Hps|].
    intros k [Hk _]%andb_true_iff. now apply negb_true_iff. }
  apply sorted_entries_keys_ascending; [assumption| |apply Array_sort_sorted].
  eapply Forall_impl; [exact Hps|].
  now intros k [_ Hk]%andb_true_iff.
Qed.

Lemma keys_set_latest_plain names (t : obj string) :
  Forall (fun k => plain_key k = true) names ->
  Forall (fun k => plain_key k = true) (keys t) ->
  Forall (fun k => plain_key k = true) (keys (set_latest names t)).
Proof.
  unfold set_latest. revert t.
  induction names as [|n ns IH]; intros t Hn Ht; [assumption|].
  apply Forall_cons in Hn as [Hn Hns]. cbn [fold_left]. apply IH; [assumption|].
  destruct (obj_has n t) eqn:Hh.
  - now rewrite keys_set_has.
  - rewrite keys_set_perm by assumption. now constructor.
Qed.

Lemma keys_newDevDependenciesToInstall_plain peer pf pd :
  Forall (fun k => plain_key k = true) (keys peer) ->
  Forall (fun k => plain_key k = true)
    (keys (newDevDependenciesToInstall peer pf pd)).
Proof.
  intros Hp. unfold newDevDependenciesToInstall.
  assert (Forall (fun k => plain_key k = true) safeqlPackages) as Hs
    by (repeat constructor).
  assert (Forall (fun k => plain_key k = true) stylelintPackages) as Hl
    by (repeat constructor).
  destruct (usesStylelint pd), (usesSafeql pf pd);
    repeat apply keys_set_latest_plain; assumption.
Qed.

Lemma keys_spread_Forall {V} (P : string -> Prop) (src dst : obj V) :
  Forall P (keys src) -> Forall P (keys dst) ->
  Forall P (keys (spread src dst)).
Proof.
  intros Hs Hd. apply Forall_forall. intros k Hk.
  apply obj_has_In in Hk. rewrite obj_has_spread in Hk.
  rewrite Forall_forall in Hs, Hd.
  apply orb_true_iff in Hk as [Hk|Hk]; apply obj_has_In in Hk; auto.
Qed.

Lemma NoDup_keys_set_latest names (t : obj string) :
  NoDup (keys t) -> NoDup (keys (set_latest names t)).
Proof.
  unfold set_latest. revert t.
  induction names as [|n ns IH]; intros t H; [assumption|].
  cbn [fold_left]. now apply IH, NoDup_keys_set.
Qed.

Lemma NoDup_keys_newDevDependenciesToInstall peer pf pd :
  NoDup (keys peer) -> NoDup (keys (newDevDependenciesToInstall peer pf pd)).
Proof.
  intros H. unfold newDevDependenciesToInstall.
  destruct (usesStylelint pd), (usesSafeql pf pd);
    repeat apply NoDup_keys_set_latest; assumption.
Qed.

(** Reading the merged devDependencies: the requirement wins over the old
    entry, and an old entry without requirement is kept. *)
Lemma obj_get_merged peer pf m k :
  NoDup (keys peer) -> NoDup (keys (or_empty (devDependencies m))) ->
  obj_get k (mergeDevDependencies peer pf m) =
  match obj_get k (newDevDependenciesToInstall peer pf
                     (or_empty (dependencies m))) with
  | Some v => Some v
  | None => obj_get k (or_empty (devDependencies m))
  end.
Proof.
  intros Hp Hd. rewrite obj_get_mergeDevDependencies. unfold mergedEntries.
  rewrite obj_get_spread_NoDup
    by now apply NoDup_keys_newDevDependenciesToInstall.
  destruct (obj_get k (newDevDependenciesToInstall _ _ _)); [reflexivity|].
  rewrite obj_get_spread_NoDup by assumption.
  now destruct (obj_get k (or_empty (devDependencies m))).
Qed.

(** The merge in the scenario of a project with [next] only. *)
Lemma mergeDevDependencies_next peer pf m :
  dependencies m = Some [("next", "^13.0.0")] ->
  devDependencies m = None ->
  pf <> "win32" ->
  NoDup (keys peer) ->
  Forall (fun k => plain_key k = true) (keys peer) ->
  let d := mergeDevDependencies peer pf m in
  (forall k, k ∈ keys peer -> k ∈ keys d)
  /\ (forall k, k ∈ stylelintPackages -> obj_get k d = Some "latest")
  /\ (forall k, obj_get k d =
        if bool_decide (k ∈ stylelintPackages ++ safeqlPackages)
        then Some "latest" else obj_get k peer)
  /\ keys_ascending d.
Proof.
  intros Hdep Hdev Hpf Hnd Hplain d.
  assert (Hget : forall k, obj_get k d =
            if bool_decide (k ∈ stylelintPackages ++ safeqlPackages)
            then Some "latest" else obj_get k peer).
  { intros k. unfold d. rewrite obj_get_merged; [|assumption|].
    - rewrite Hdep, Hdev. cbn [or_empty obj_get].
      rewrite obj_get_newDevDependenciesToInstall.
      assert (usesStylelint [("next", "^13.0.0")] = true) as -> by reflexivity.
      assert (usesSafeql pf [("next", "^13.0.0")] = true) as ->.
      { unfold usesSafeql. apply String.eqb_neq in Hpf. now rewrite Hpf. }
      cbn [andb].
      destruct (decide (k ∈ stylelintPackages)) as [H1|H1].
      + rewrite (bool_decide_eq_true_2 _ H1).
        rewrite bool_decide_eq_true_2 by (apply elem_of_app; now left).
        reflexivity.
      + rewrite (bool_decide_eq_false_2 _ H1).
        destruct (decide (k ∈ safeqlPackages)) as [H2|H2].
        * rewrite (bool_decide_eq_true_2 _ H2).
          rewrite bool_decide_eq_true_2 by (apply elem_of_app; now right).
          reflexivity.
        * rewrite (bool_decide_eq_false_2 _ H2).
          rewrite bool_decide_eq_false_2
            by (intros [?|?]%elem_of_app; contradiction).
          now destruct (obj_get k peer).
    - rewrite Hdev. constructor. }
  split; [|split; [|split]].
  - intros k Hk. apply obj_has_In. unfold obj_has. rewrite Hget.
    destruct (bool_decide _); [reflexivity|].
    apply obj_has_In in Hk. exact Hk.
  - intros k Hk. rewrite Hget.
    rewrite bool_decide_eq_true_2 by (apply elem_of_app; now left).
    reflexivity.
  - exact Hget.
  - apply mergeDevDependencies_ascending. unfold mergedEntries.
    apply keys_spread_Forall.
    + now apply keys_newDevDependenciesToInstall_plain.
    + apply keys_spread_Forall; [|constructor].
      rewrite Hdev. constructor.
Qed.

(** C6. UI-framework scenario: with [next] as the only dependency, no
    devDependencies and a platform other than Windows, the script assigns
    to [devDependencies], and a run that ends well leaves in the written
    manifest, the peer dependencies of the config with their versions,
    except that the five Stylelint packages (and the two SafeQL ones) are
    there with version [latest]; and the keys are in ascending order, the
    names of the table being plain package names. *)
Theorem next_scenario E p m :
  packageJson p = Some m ->
  dependencies m = Some [("next", "^13.0.0")] ->
  devDependencies m = None ->
  platform E <> "win32" ->
  NoDup (keys (peerDependencies E)) ->
  Forall (fun k => plain_key k = true) (keys (peerDependencies E)) ->
  exists d,
    (forall projectUsesYarn,
       devDependencies
         (written (updateManifest (peerDependencies E) (platform E)
                     projectUsesYarn m)) = Some d)
    /\ (forall p1, run E p = Ok p1 ->
          exists m1, packageJson p1 = Some m1 /\ devDependencies m1 = Some d)
    /\ (forall k, k ∈ keys (peerDependencies E) -> k ∈ keys d)
    /\ (forall k, k ∈ stylelintPackages -> obj_get k d = Some "latest")
    /\ (forall k, obj_get k d =
          if bool_decide (k ∈ stylelintPackages ++ safeqlPackages)
          then Some "latest" else obj_get k (peerDependencies E))
    /\ keys_ascending d.
Proof.
  intros Hm Hdep Hdev Hpf Hnd Hplain.
  exists (mergeDevDependencies (peerDependencies E) (platform E) m).
  split; [reflexivity|]. split.
  - intros p1 Hrun.
    destruct (run_Ok _ _ _ Hrun) as (m' & fs1 & Hm' & _ & _ & _ & Hm1 & _).
    rewrite Hm in Hm'. injection Hm' as <-.
    eexists. split; [exact Hm1|reflexivity].
  - now apply mergeDevDependencies_next.
Qed.

Lemma next_scenario_witness :
  exists p1 m1 d,
    run sampleEnvironment
      (Project (Some (Manifest (Some [("next", "^13.0.0")]) None None [])) ∅)
    = Ok p1
    /\ packageJson p1 = Some m1
    /\ devDependencies m1 = Some d
    /\ keys_ascending d
    /\ obj_get "stylelint" d = Some "latest".
Proof.
  destruct (next_scenario sampleEnvironment
              (Project (Some (Manifest (Some [("next", "^13.0.0")]) None None []))
                 ∅)
              (Manifest (Some [("next", "^13.0.0")]) None None []))
    as (d & _ & Hrun & _ & Hl & _ & Hs).
  - reflexivity.
  - reflexivity.
  - reflexivity.
  - discriminate.
  - compute_done.
  - repeat constructor.
  - destruct (run sampleEnvironment
                (Project (Some (Manifest (Some [("next", "^13.0.0")])
                                  None None [])) ∅))
      as [p1|e] eqn:Hr; [|vm_compute in Hr; discriminate Hr].
    destruct (Hrun p1 eq_refl) as (m1 & H1 & H2).
    exists p1, m1, d. repeat split; try assumption.
    apply Hl. compute_done.
Defined.

(** ** What the resolutions hold *)

Lemma obj_get_map_keys {V} (f : string -> V) k ks :
  obj_get k (map (fun k => (k, f k)) ks) =
  if bool_decide (k ∈ ks) then Some (f k) else None.
Proof.
  induction ks as [|k' r IH]; [reflexivity|].
  simpl. destruct (String.eqb_spec k k') as [->|Hne].
  - now rewrite bool_decide_eq_true_2 by left.
  - rewrite IH. destruct (decide (k ∈ r)).
    + rewrite !bool_decide_eq_true_2; [reflexivity|now right|assumption].
    + rewrite !bool_decide_eq_false_2; [reflexivity| |assumption].
      intros [?|?]%elem_of_cons; contradiction.
Qed.

Lemma elem_of_obj_update {V} (e : string * V) k v o :
  e ∈ obj_update k v o -> e = (k, v) \/ e ∈ o.
Proof.
  induction o as [|[k' v'] r IH]; simpl; [now right|].
  destruct (String.eqb_spec k k') as [->|Hne].
  - intros [->|?]%elem_of_cons; [now left|right; now right].
  - intros [->|?]%elem_of_cons; [right; left|].
    destruct IH as [?|?]; [assumption|now left|right; now right].
Qed.

Lemma elem_of_obj_set {V} (e : string * V) k v o :
  e ∈ obj_set k v o -> e = (k, v) \/ e ∈ o.
Proof.
  unfold obj_set. destruct (obj_has k o).
  - apply elem_of_obj_update.
  - destruct (array_index k).
    + rewrite insert_index_perm. intros [->|?]%elem_of_cons; auto.
    + intros [?|H%list_elem_of_singleton]%elem_of_app; auto.
Qed.

Lemma elem_of_spread {V} (e : string * V) src dst :
  e ∈ spread src dst -> e ∈ src \/ e ∈ dst.
Proof.
  revert dst. induction src as [|[k v] r IH]; intros dst; [now right|].
  rewrite spread_cons. intros [?|[->|?]%elem_of_obj_set]%IH.
  - left. now right.
  - left. left.
  - now right.
Qed.

Lemma wf_newResolutions existing dev : wf_obj (newResolutions existing dev).
Proof.
  rewrite newResolutions_spread. apply wf_obj_spread, wf_obj_spread, wf_obj_nil.
Qed.

(** C2, as the code has it.  In the resolutions that the Yarn path writes to
    the manifest, each of the eight pinned keys has the version that the
    final devDependencies give to its source package (the parser, for
    [@typescript-eslint/utils]), and is left out when the devDependencies
    do not have that package; in memory the key is there all the same, its
    value undefined.  Every other key of the written resolutions is an
    entry of the old resolutions, kept with its value, whether or not the
    devDependencies have it. *)
Theorem resolutions_pins peer pf m :
  let dev := mergeDevDependencies peer pf m in
  let inMemory := newResolutions (resolutions m) dev in
  resolutions (updateManifest peer pf true m) = Some inMemory
  /\ (forall k, k ∈ pinKeys ->
        obj_get k inMemory = Some (obj_get (pinSource k) dev)
        /\ obj_get k (dropUndefined inMemory) =
           match obj_get (pinSource k) dev with
           | Some version => Some (Some version)
           | None => None
           end)
  /\ (forall k version, k ∉ pinKeys ->
        obj_get k (dropUndefined inMemory) = Some version ->
        (k, version) ∈ or_empty (resolutions m)).
Proof.
  intros dev inMemory. split; [reflexivity|].
  assert (Hpin : forall k, k ∈ pinKeys ->
            obj_get k inMemory = Some (obj_get (pinSource k) dev)).
  { intros k Hk. unfold inMemory. rewrite newResolutions_spread.
    rewrite obj_get_spread_NoDup
      by (rewrite keys_pinEntries; apply NoDup_pinKeys).
    rewrite pinEntries_map, obj_get_map_keys.
    now rewrite bool_decide_eq_true_2. }
  split.
  - intros k Hk. split; [now apply Hpin|].
    unfold dropUndefined.
    rewrite obj_get_filter by apply wf_newResolutions.
    fold inMemory. rewrite (Hpin k Hk). cbn [snd].
    destruct (obj_get (pinSource k) dev) as [version|].
    + destruct (decide _) as [|Hn]; [reflexivity|].
      exfalso. apply Hn. now exists version.
    + destruct (decide _) as [[? [=]]|]; reflexivity.
  - intros k version Hk. unfold dropUndefined.
    rewrite obj_get_filter by apply wf_newResolutions.
    fold inMemory. unfold inMemory at 1. rewrite newResolutions_spread.
    rewrite obj_get_spread_other by now rewrite keys_pinEntries.
    destruct (obj_get k _) as [v|] eqn:Hg; [|discriminate].
    destruct (decide _); [|discriminate]. intros [= ->].
    apply obj_get_In, elem_of_spread in Hg as [Hg|[]%elem_of_nil].
    exact Hg.
Qed.

Lemma resolutions_pins_witness :
  obj_get "@typescript-eslint/utils"
    (dropUndefined
       (newResolutions (Some [("left-pad", Some "1.3.0")])
          (mergeDevDependencies samplePeerDependencies "linux"
             (Manifest None None (Some [("left-pad", Some "1.3.0")]) []))))
  = Some (Some "^6.0.0").
Proof.
  apply (resolutions_pins samplePeerDependencies "linux"
           (Manifest None None (Some [("left-pad", Some "1.3.0")]) [])
         : _ /\ _ /\ _).
  compute_done.
Defined.

(** C2, as stated, fails: an old resolution is kept though the
    devDependencies do not have its key. *)
Lemma old_resolution_without_devDependency :
  ~ (forall peer pf m k version,
       obj_get k
         (dropUndefined
            (newResolutions (resolutions m) (mergeDevDependencies peer pf m)))
       = Some (Some version) ->
       obj_get (pinSource k) (mergeDevDependencies peer pf m) = Some version).
Proof.
  intros H.
  specialize (H samplePeerDependencies "linux"
                (Manifest None None (Some [("left-pad", Some "1.3.0")]) [])
                "left-pad" "1.3.0" eq_refl).
  discriminate H.
Qed.

(** ** Where the sort does not sort the keys *)

Lemma keys_filter_sorted {V} (R : string -> string -> Prop)
    (P : string * V -> Prop) `{!forall e, Decision (P e)} (o : obj V) :
  StronglySorted R (keys o) -> StronglySorted R (keys (filter P o)).
Proof.
  induction o as [|[k v] r IH]; [constructor|].
  simpl. intros [Hall Hs]%StronglySorted_cons.
  rewrite filter_cons. destruct (decide _); [|auto].
  simpl. apply StronglySorted_cons. split; [|auto].
  apply Forall_forall. intros x Hx. rewrite Forall_forall in Hall.
  apply Hall. eapply keys_filter_elem, Hx.
Qed.

(** C4: the sort compares the strings [key,value], not the keys.  With
    [a] and [a!] among the old devDependencies, whatever the peer
    dependencies, the platform and the rest of the manifest, [a!] comes
    before [a] in the result, because [!] comes before the comma; the keys
    are not in ascending order. *)
Theorem sort_compares_entry_strings peer pf deps res others :
  ~ keys_ascending
      (mergeDevDependencies peer pf
         (Manifest deps (Some [("a", "1.0.0"); ("a!", "1.0.0")]) res others)).
Proof.
  set (m := Manifest deps (Some [("a", "1.0.0"); ("a!", "1.0.0")]) res others).
  set (s := Array_sort (mergedEntries peer pf m)).
  intros Hasc.
  assert (Hin : forall k, k = "a" \/ k = "a!" -> exists v, (k, v) ∈ s).
  { intros k Hk.
    assert (obj_has k (mergedEntries peer pf m) = true) as Hh.
    { rewrite obj_has_mergedEntries. apply orb_true_iff. right.
      destruct Hk as [->| ->]; reflexivity. }
    unfold obj_has in Hh.
    destruct (obj_get k (mergedEntries peer pf m)) as [v|] eqn:Hg;
      [|discriminate].
    exists v. unfold s. rewrite Array_sort_perm. now apply obj_get_In. }
  destruct (Hin "a") as [v1 H1]; [now left|].
  destruct (Hin "a!") as [v2 H2]; [now right|].
  apply list_elem_of_split in H1 as (l1 & l2 & Hs).
  assert (("a!", v2) ∈ l1) as Hl1.
  { rewrite Hs in H2. apply elem_of_app in H2 as [?|H2]; [assumption|].
    apply elem_of_cons in H2 as [[=]|H2].
    pose proof (Array_sort_sorted (mergedEntries peer pf m)) as Hsorted.
    fold s in Hsorted. rewrite Hs in Hsorted.
    apply StronglySorted_app_1_r, StronglySorted_cons in Hsorted as [Hall _].
    rewrite Forall_forall in Hall. specialize (Hall _ H2).
    discriminate Hall. }
  unfold keys_ascending, mergeDevDependencies, Object_entries in Hasc.
  fold s in Hasc.
  apply (keys_filter_sorted _ nonindex_entry) in Hasc.
  rewrite filter_nonindex_fromEntries in Hasc by apply NoDup_sorted_merged.
  rewrite Hs, filter_app, filter_cons in Hasc.
  destruct (decide (nonindex_entry ("a", v1))) as [_|Hn];
    [|apply Hn; reflexivity].
  unfold keys in Hasc. rewrite map_app in Hasc.
  assert (String.ltb "a!" "a" = true) as Hlt; [|discriminate Hlt].
  eapply (StronglySorted_app_1_elem_of _ _ _ _ _ Hasc).
  - change "a!" with (fst ("a!", v2)). apply list_elem_of_In, in_map.
    apply list_elem_of_In, list_elem_of_filter. split; [reflexivity|assumption].
  - left.
Qed.

Example sort_compares_entry_strings_sample :
  keys (mergeDevDependencies [("eslint", "^8.44.0")] "linux"
          (Manifest None (Some [("a", "1.0.0"); ("a!", "1.0.0")]) None []))
  = ["a!"; "a"; "eslint"].
Proof. reflexivity. Qed.

(** ** The same, over a whole run *)

(** A file that the package manager leaves alone, and that is neither the
    ignore list nor the legacy config, is after the run what it was. *)
Lemma run_keeps_existing_file E p p1 name text :
  run E p = Ok p1 -> files p !! name = Some text ->
  (forall cmd m fs fs',
     runInstall E cmd m fs = Some fs' -> fs' !! name = fs !! name) ->
  name <> ".gitignore" -> name <> ".eslintrc.json" ->
  files p1 !! name = Some text.
Proof.
  intros Hrun Hf Hkeep Hg Hl.
  destruct (run_Ok _ _ _ Hrun) as (m & fs1 & _ & _ & _ & Hi & _ & Hf1).
  rewrite (run_files_other E p1 m fs1) by assumption.
  rewrite writeConfigFiles_lookup, (Hkeep _ _ _ _ Hi), Hf. reflexivity.
Qed.

(** Without an ignore list before the run, and none among the templates,
    the run leaves one with the two patterns. *)
Lemma run_creates_gitignore E p p1 :
  run E p = Ok p1 -> files p !! ".gitignore" = None ->
  (forall cmd m fs fs',
     runInstall E cmd m fs = Some fs' ->
     fs' !! ".gitignore" = fs !! ".gitignore") ->
  ".gitignore" ∉ templateFileNames E ->
  files p1 !! ".gitignore" =
  Some (String.append ".eslintcache"
          (String.append newline (String.append "*.tsbuildinfo" newline))).
Proof.
  intros Hrun Hf Hkeep Ht.
  destruct (run_Ok _ _ _ Hrun) as (m & fs1 & _ & _ & _ & Hi & _ & Hf1).
  rewrite (run_files_gitignore E p1 m fs1 Hf1).
  rewrite writeConfigFiles_lookup, (Hkeep _ _ _ _ Hi), Hf.
  now rewrite newConfigFile_names.
Qed.

(** * Further properties of the script *)

(** ** The devDependencies *)

(** X1. The value of every key of the new devDependencies: [latest] for a
    Stylelint or SafeQL package whose block was taken, else the version of
    the peer dependencies, else the version the project had. *)
Theorem devDependencies_values peer pf m k :
  NoDup (keys peer) -> NoDup (keys (or_empty (devDependencies m))) ->
  obj_get k (mergeDevDependencies peer pf m) =
  if usesStylelint (or_empty (dependencies m))
     && bool_decide (k ∈ stylelintPackages)
  then Some "latest"
  else if usesSafeql pf (or_empty (dependencies m))
          && bool_decide (k ∈ safeqlPackages)
       then Some "latest"
       else match obj_get k peer with
            | Some version => Some version
            | None => obj_get k (or_empty (devDependencies m))
            end.
Proof.
  intros Hp Hd. rewrite obj_get_merged by assumption.
  rewrite obj_get_newDevDependenciesToInstall.
  destruct (_ && _); [reflexivity|]. destruct (_ && _); reflexivity.
Qed.

Lemma devDependencies_values_witness :
  obj_get "eslint"
    (mergeDevDependencies samplePeerDependencies "linux"
       (Manifest None (Some [("eslint", "^7.0.0"); ("prettier", "^3.0.0")])
          None []))
  = Some "^8.44.0".
Proof.
  rewrite (devDependencies_values samplePeerDependencies "linux"
             (Manifest None (Some [("eslint", "^7.0.0"); ("prettier", "^3.0.0")])
                None []) "eslint").
  - reflexivity.
  - compute_done.
  - compute_done.
Defined.

(** X2. When the peer dependencies and the old devDependencies have plain
    package names only, the new devDependencies are in strict ascending
    order of their keys. *)
Theorem devDependencies_sorted_for_plain_names peer pf m :
  Forall (fun k => plain_key k = true) (keys peer) ->
  Forall (fun k => plain_key k = true) (keys (or_empty (devDependencies m))) ->
  keys_ascending (mergeDevDependencies peer pf m).
Proof.
  intros Hp Hd. apply mergeDevDependencies_ascending. unfold mergedEntries.
  apply keys_spread_Forall.
  - now apply keys_newDevDependenciesToInstall_plain.
  - apply keys_spread_Forall; [assumption|constructor].
Qed.

Lemma devDependencies_sorted_for_plain_names_witness :
  keys_ascending
    (mergeDevDependencies samplePeerDependencies "win32"
       (Manifest (Some [("react-scripts", "5.0.1")])
          (Some [("prettier", "^3.0.0"); ("@types/node", "^20.0.0")]) None [])).
Proof.
  apply (devDependencies_sorted_for_plain_names samplePeerDependencies "win32").
  - repeat constructor.
  - repeat constructor.
Defined.

Lemma obj_has_set_latest k names (t : obj string) :
  obj_has k (set_latest names t) = bool_decide (k ∈ names) || obj_has k t.
Proof.
  unfold obj_has. rewrite obj_get_set_latest.
  now destruct (bool_decide _).
Qed.

(** X3. The keys of the new devDependencies: no key twice, and exactly the
    keys of the peer dependencies, those of the old devDependencies and the
    packages of the conditional blocks that were taken.  Nothing the
    project had is dropped. *)
Theorem devDependencies_keys peer pf m :
  NoDup (keys (mergeDevDependencies peer pf m))
  /\ forall k,
       k ∈ keys (mergeDevDependencies peer pf m) <->
       k ∈ keys peer
       \/ k ∈ keys (or_empty (devDependencies m))
       \/ (usesSafeql pf (or_empty (dependencies m)) = true
           /\ k ∈ safeqlPackages)
       \/ (usesStylelint (or_empty (dependencies m)) = true
           /\ k ∈ stylelintPackages).
Proof.
  split; [apply wf_mergeDevDependencies|].
  intros k. rewrite <- !obj_has_In.
  rewrite obj_has_mergeDevDependencies, obj_has_mergedEntries.
  unfold newDevDependenciesToInstall.
  destruct (usesStylelint _), (usesSafeql _ _);
    rewrite ?obj_has_set_latest, !orb_true_iff, ?bool_decide_eq_true;
    intuition congruence.
Qed.

(** X4. Updating and writing the manifest is idempotent, for each package
    manager: a second update of the written manifest writes the same
    manifest. *)
Theorem manifest_update_idempotent peer pf (projectUsesYarn : bool) m :
  written (updateManifest peer pf projectUsesYarn
             (written (updateManifest peer pf projectUsesYarn m))) =
  written (updateManifest peer pf projectUsesYarn m).
Proof. now apply written_update_again. Qed.

(** ** The resolutions *)

(** X5. A resolution of the project whose key is not one of the eight
    pinned keys is kept with its value. *)
Theorem other_resolutions_kept (old : obj (option string)) dev k :
  NoDup (keys old) -> k ∉ pinKeys ->
  obj_get k (newResolutions (Some old) dev) = obj_get k old.
Proof.
  intros Hnd Hk. rewrite newResolutions_spread.
  rewrite obj_get_spread_other by now rewrite keys_pinEntries.
  cbn [or_empty]. rewrite obj_get_spread_NoDup by assumption.
  now destruct (obj_get k old).
Qed.

Lemma other_resolutions_kept_witness :
  obj_get "left-pad"
    (newResolutions (Some [("left-pad", Some "1.3.0")]) samplePeerDependencies)
  = Some (Some "1.3.0").
Proof.
  rewrite (other_resolutions_kept [("left-pad", Some "1.3.0")]
             samplePeerDependencies "left-pad").
  - reflexivity.
  - compute_done.
  - compute_done.
Defined.

Lemma filter_ext_elem {A} (P Q : A -> Prop) `{!forall x, Decision (P x)}
    `{!forall x, Decision (Q x)} (l : list A) :
  (forall x, x ∈ l -> P x <-> Q x) -> filter P l = filter Q l.
Proof.
  induction l as [|x r IH]; intros Hpq; [reflexivity|].
  rewrite !filter_cons.
  assert (filter P r = filter Q r) as ->
    by (apply IH; intros y Hy; apply Hpq; now right).
  assert (P x <-> Q x) as Hx by (apply Hpq; left).
  destruct (decide (P x)), (decide (Q x)); try reflexivity; tauto.
Qed.

Lemma keys_spread_nonindex {V} (src : obj V) : forall dst : obj V,
  NoDup (keys src) -> Forall (fun k => is_index k = false) (keys src) ->
  keys (spread src dst) =
  keys dst ++ filter (fun k => k ∉ keys dst) (keys src).
Proof.
  induction src as [|[k v] r IH]; intros dst Hnd Hni.
  - simpl. now rewrite app_nil_r.
  - simpl in Hnd, Hni. apply NoDup_cons in Hnd as [Hk Hnd].
    apply Forall_cons in Hni as [Hi Hni].
    rewrite spread_cons, IH by assumption.
    cbn [keys map fst]. rewrite filter_cons.
    destruct (decide (k ∉ keys dst)) as [Hout|Hin].
    + assert (obj_set k v dst = dst ++ [(k, v)]) as ->.
      { unfold obj_set. apply obj_has_false in Hout. rewrite Hout.
        unfold is_index in Hi. now destruct (array_index k). }
      unfold keys. rewrite map_app. cbn [map fst].
      rewrite <- app_assoc. cbn [app]. do 2 f_equal.
      apply filter_ext_elem. intros x Hx.
      rewrite elem_of_app, list_elem_of_singleton.
      split; [tauto|]. intros Hn [?|Heq]; [tauto|].
      subst x. apply Hk. exact Hx.
    + assert (obj_has k dst = true) as Hh.
      { destruct (obj_has k dst) eqn:E; [reflexivity|].
        apply obj_has_false in E. contradiction. }
      now rewrite keys_set_has.
Qed.

(** X6. The order of the keys of the new resolutions: the keys of the
    project's resolutions in their order, then the pinned keys that were
    not among them, in the order of the script. *)
Theorem resolutions_key_order (old : obj (option string)) dev :
  wf_obj old ->
  keys (newResolutions (Some old) dev) =
  keys old ++ filter (fun k => k ∉ keys old) pinKeys.
Proof.
  intros Hwf. rewrite newResolutions_spread. cbn [or_empty].
  rewrite (spread_wf old Hwf).
  rewrite keys_spread_nonindex, keys_pinEntries; [reflexivity| |].
  - rewrite keys_pinEntries. apply NoDup_pinKeys.
  - rewrite keys_pinEntries. repeat constructor.
Qed.

Lemma resolutions_key_order_witness :
  keys (newResolutions
          (Some [("eslint-plugin-react", Some "7.0.0"); ("left-pad", Some "1.3.0")])
          samplePeerDependencies)
  = ["eslint-plugin-react"; "left-pad"; "@typescript-eslint/eslint-plugin";
     "@typescript-eslint/parser"; "eslint-plugin-import"; "eslint-plugin-jest";
     "eslint-plugin-jsx-a11y"; "eslint-plugin-react-hooks";
     "@typescript-eslint/utils"].
Proof.
  rewrite (resolutions_key_order
             [("eslint-plugin-react", Some "7.0.0"); ("left-pad", Some "1.3.0")]
             samplePeerDependencies).
  - reflexivity.
  - apply nonindex_wf; [compute_done|repeat constructor].
Defined.

(** X7. With [pnpm-lock.yaml] in the directory the script takes the pnpm
    path: a run that ends well has written the merged devDependencies and
    left the resolutions as they were, absent when they were absent. *)
Theorem pnpm_leaves_resolutions E p p1 m :
  packageJson p = Some m -> is_Some (files p !! "pnpm-lock.yaml") ->
  run E p = Ok p1 ->
  exists m1,
    packageJson p1 = Some m1
    /\ devDependencies m1 =
       Some (mergeDevDependencies (peerDependencies E) (platform E) m)
    /\ resolutions m1 = option_map dropUndefined (resolutions m).
Proof.
  intros Hm Hlock%existsSync_lock Hrun.
  destruct (run_Ok _ _ _ Hrun) as (m' & fs1 & Hm' & _ & _ & _ & Hm1 & _).
  rewrite Hm in Hm'. injection Hm' as <-.
  rewrite Hlock in Hm1. eexists. split; [exact Hm1|]. split; reflexivity.
Qed.

Lemma pnpm_leaves_resolutions_witness :
  exists p1 m1,
    run sampleEnvironment
      (Project (Some (Manifest None None None []))
         {[ "pnpm-lock.yaml" := "lockfileVersion: 6.0" ]}) = Ok p1
    /\ packageJson p1 = Some m1 /\ resolutions m1 = None.
Proof.
  destruct (run sampleEnvironment
              (Project (Some (Manifest None None None []))
                 {[ "pnpm-lock.yaml" := "lockfileVersion: 6.0" ]}))
    as [p1|e] eqn:Hrun; [|vm_compute in Hrun; discriminate Hrun].
  destruct (pnpm_leaves_resolutions sampleEnvironment
              (Project (Some (Manifest None None None []))
                 {[ "pnpm-lock.yaml" := "lockfileVersion: 6.0" ]}) p1
              (Manifest None None None []) eq_refl) as (m1 & H1 & _ & H3).
  - vm_compute. eauto.
  - exact Hrun.
  - exists p1, m1. auto.
Defined.

(** ** The template loop *)

(** X8. The template loop touches no file but those named like a
    template. *)
Theorem templates_touch_only_their_names E pd fs name :
  name ∉ templateFileNames E ->
  writeConfigFiles E pd fs !! name = fs !! name.
Proof.
  intros H. rewrite writeConfigFiles_lookup, newConfigFile_names by assumption.
  now destruct (fs !! name).
Qed.

Lemma templates_touch_only_their_names_witness :
  writeConfigFiles sampleEnvironment [("next", "13.4.0")]
    {[ "README.md" := "# my-app" ]} !! "README.md" = Some "# my-app"
  /\ writeConfigFiles sampleEnvironment [("next", "13.4.0")]
       {[ "README.md" := "# my-app" ]} !! "tsconfig.json" = None.
Proof.
  split.
  - rewrite (templates_touch_only_their_names sampleEnvironment
               [("next", "13.4.0")] {[ "README.md" := "# my-app" ]} "README.md").
    + vm_compute. reflexivity.
    + compute_done.
  - rewrite (templates_touch_only_their_names sampleEnvironment
               [("next", "13.4.0")] {[ "README.md" := "# my-app" ]}
               "tsconfig.json").
    + vm_compute. reflexivity.
    + compute_done.
Defined.

Lemma firstText_NoDup name text ts :
  NoDup (map fst ts) -> (name, Some text) ∈ ts ->
  firstText name ts = Some text.
Proof.
  induction ts as [|[n c] r IH]; simpl.
  - intros _ []%elem_of_nil.
  - intros [Hn Hnd]%NoDup_cons [[= <- <-]|Hin]%elem_of_cons.
    + now rewrite String.eqb_refl.
    + destruct (String.eqb_spec n name) as [->|Hne]; [|auto].
      exfalso. apply Hn. apply list_elem_of_In.
      change name with (fst (name, Some text)).
      apply in_map. now apply list_elem_of_In.
Qed.

(** X9. Where there is no file yet, the loop writes the text of the
    template of that name, if it can be read and written, whatever becomes
    of the other templates; only [stylelint.config.cjs] also needs a
    project with [react-scripts] or [next]. *)
Theorem missing_config_file_written E pd fs name text :
  NoDup (templateFileNames E) -> (name, Some text) ∈ templates E ->
  fs !! name = None -> name <> "package.json" -> writable E name = true ->
  (name = "stylelint.config.cjs" -> usesStylelint pd = true) ->
  writeConfigFiles E pd fs !! name = Some text.
Proof.
  intros Hnd Hin Hf Hp Hw Hs. rewrite writeConfigFiles_lookup, Hf.
  unfold newConfigFile. rewrite Hw.
  apply String.eqb_neq in Hp. rewrite Hp. cbn [negb orb].
  rewrite orb_false_r.
  destruct (String.eqb_spec name "stylelint.config.cjs") as [Heq|_].
  - rewrite (Hs Heq). cbn [negb andb]. now apply firstText_NoDup.
  - cbn [andb]. now apply firstText_NoDup.
Qed.

Lemma missing_config_file_written_witness :
  writeConfigFiles sampleEnvironment [("next", "13.4.0")] ∅
    !! "stylelint.config.cjs" = Some "module.exports = {};".
Proof.
  apply (missing_config_file_written sampleEnvironment [("next", "13.4.0")] ∅
           "stylelint.config.cjs" "module.exports = {};").
  - compute_done.
  - compute_done.
  - reflexivity.
  - discriminate.
  - reflexivity.
  - reflexivity.
Defined.

(** X10. In a project with neither [react-scripts] nor [next] the loop
    leaves [stylelint.config.cjs] as it is: not created, not changed. *)
Theorem stylelint_config_skipped E pd fs :
  usesStylelint pd = false ->
  writeConfigFiles E pd fs !! "stylelint.config.cjs" =
  fs !! "stylelint.config.cjs".
Proof.
  intros H. rewrite writeConfigFiles_lookup.
  assert (newConfigFile E pd "stylelint.config.cjs" = None) as ->
    by (unfold newConfigFile; rewrite H; reflexivity).
  now destruct (fs !! "stylelint.config.cjs").
Qed.

Lemma stylelint_config_skipped_witness :
  writeConfigFiles sampleEnvironment [("postgres", "^3.0.0")] ∅
    !! "stylelint.config.cjs" = None.
Proof.
  rewrite (stylelint_config_skipped sampleEnvironment [("postgres", "^3.0.0")] ∅).
  - reflexivity.
  - reflexivity.
Defined.

(** ** The lines of the ignore list *)

Lemma split_newGitignore old :
  let lines := match old with Some text => split_LF text | None => [] end in
  split_LF (newGitignore old) =
  lines
  ++ (if includes ".eslintcache" lines then [] else [".eslintcache"])
  ++ (if includes "*.tsbuildinfo" lines then [] else ["*.tsbuildinfo"])
  ++ (if includes ".eslintcache" lines && includes "*.tsbuildinfo" lines
         && bool_decide (last lines = Some EmptyString)
      then [] else [EmptyString]).
Proof.
  intros lines. unfold newGitignore. fold lines.
  pose proof (addIgnorePaths_nonempty lines) as Hne.
  pose proof (addIgnorePaths_no_LF lines (oldLines_no_LF old)) as Hlf.
  fold lines in Hlf.
  assert (Hsplit : forall tail : list string,
            tail = [] \/ tail = [EmptyString] ->
            (tail = [] <-> last (addIgnorePaths lines) = Some EmptyString) ->
            split_LF (gitignoreText (addIgnorePaths lines)) =
            addIgnorePaths lines ++ tail).
  { intros tail [->| ->] Hiff.
    - rewrite gitignoreText_empty_last by now apply Hiff.
      rewrite split_join by assumption. now rewrite app_nil_r.
    - rewrite gitignoreText_other_last
        by (intros Hl; apply Hiff in Hl; discriminate Hl).
      unfold newline. rewrite <- join_LF_snoc by assumption.
      apply split_join.
      + now destruct (addIgnorePaths lines).
      + apply Forall_app_2; [assumption|repeat constructor]. }
  rewrite (Hsplit (if includes ".eslintcache" lines
                      && includes "*.tsbuildinfo" lines
                      && bool_decide (last lines = Some EmptyString)
                   then [] else [EmptyString])).
  - rewrite addIgnorePaths_eq. now rewrite <- !app_assoc.
  - destruct (_ && _); auto.
  - rewrite addIgnorePaths_eq.
    destruct (includes ".eslintcache" lines),
      (includes "*.tsbuildinfo" lines); cbn [andb];
      rewrite ?app_nil_r, ?app_assoc, ?last_snoc.
    + destruct (decide (last lines = Some EmptyString)) as [Hl|Hl].
      * rewrite bool_decide_eq_true_2 by assumption. tauto.
      * rewrite bool_decide_eq_false_2 by assumption.
        split; [discriminate|contradiction].
    + split; discriminate.
    + split; discriminate.
    + split; discriminate.
Qed.

Lemma includes_app_l x l1 l2 : includes x l1 = true -> includes x (l1 ++ l2) = true.
Proof. intros H. now rewrite includes_app, H. Qed.

Lemma newGitignore_includes old pattern :
  pattern ∈ requiredIgnorePaths ->
  includes pattern (split_LF (newGitignore old)) = true.
Proof.
  intros Hp. rewrite split_newGitignore.
  pose proof (includes_addIgnorePaths
                (match old with Some text => split_LF text | None => [] end)
                pattern Hp) as Hi.
  rewrite addIgnorePaths_eq in Hi.
  rewrite !app_assoc. apply includes_app_l.
  rewrite <- !app_assoc. exact Hi.
Qed.

Lemma newGitignore_ends_with_LF old : ends_with_LF (newGitignore old) = true.
Proof.
  assert (last (split_LF (newGitignore old)) = Some EmptyString) as Hl.
  { rewrite split_newGitignore.
    destruct (includes ".eslintcache" _), (includes "*.tsbuildinfo" _);
      cbn [andb]; rewrite ?app_nil_r.
    - destruct (decide (last match old with
                             | Some text => split_LF text
                             | None => []
                             end = Some EmptyString)) as [Hd|Hd].
      + rewrite bool_decide_eq_true_2 by assumption.
        now rewrite app_nil_r.
      + rewrite bool_decide_eq_false_2 by assumption. apply last_snoc.
    - rewrite !app_assoc. apply last_snoc.
    - rewrite !app_assoc. apply last_snoc.
    - rewrite !app_assoc. apply last_snoc. }
  apply last_split_LF in Hl as [Hempty|He]; [|exact He].
  pose proof (newGitignore_includes old ".eslintcache") as Hi.
  rewrite Hempty in Hi. discriminate Hi. left.
Qed.

(** X11. The lines of the text that the updater writes: the old lines in
    their order, then each pattern that was missing, then one empty line,
    unless nothing was missing and the old text already ended with an empty
    line.  No old line is dropped or moved. *)
Theorem gitignore_lines old :
  let lines := match old with Some text => split_LF text | None => [] end in
  split_LF (newGitignore old) =
  lines
  ++ (if includes ".eslintcache" lines then [] else [".eslintcache"])
  ++ (if includes "*.tsbuildinfo" lines then [] else ["*.tsbuildinfo"])
  ++ (if includes ".eslintcache" lines && includes "*.tsbuildinfo" lines
         && bool_decide (last lines = Some EmptyString)
      then [] else [EmptyString]).
Proof. exact (split_newGitignore old). Qed.

(** X12. A required pattern is never duplicated: it is a line of the new
    text as many times as it was a line of the old text, and once when it
    was not there. *)
Theorem gitignore_pattern_count old p :
  p ∈ requiredIgnorePaths ->
  let lines := match old with Some text => split_LF text | None => [] end in
  count_occ string_dec (split_LF (newGitignore old)) p =
  if includes p lines then count_occ string_dec lines p else 1.
Proof.
  intros Hp lines. rewrite split_newGitignore. fold lines.
  assert (Hzero : includes p lines = false -> count_occ string_dec lines p = 0).
  { intros Hi. apply count_occ_not_In. intros Hin.
    unfold includes in Hi.
    assert (existsb (String.eqb p) lines = true); [|congruence].
    apply existsb_exists. exists p. split; [assumption|apply String.eqb_refl]. }
  assert (Htail : forall b : bool,
            count_occ string_dec (if b then [] else [EmptyString]) p = 0).
  { intros b. revert Hp. unfold requiredIgnorePaths.
    rewrite !elem_of_cons, elem_of_nil.
    intros [->|[->|[]]]; destruct b; reflexivity. }
  rewrite !count_occ_app, Htail.
  revert Hp Hzero. unfold requiredIgnorePaths.
  rewrite !elem_of_cons, elem_of_nil. intros [->|[->|[]]] Hzero.
  - destruct (includes ".eslintcache" lines) eqn:E1,
      (includes "*.tsbuildinfo" lines); cbn; rewrite ?Hzero by reflexivity; lia.
  - destruct (includes "*.tsbuildinfo" lines) eqn:E2,
      (includes ".eslintcache" lines); cbn; rewrite ?Hzero by reflexivity; lia.
Qed.

Lemma gitignore_pattern_count_witness :
  count_occ string_dec
    (split_LF (newGitignore (Some (String.append ".eslintcache" newline))))
    ".eslintcache" = 1
  /\ count_occ string_dec
       (split_LF (newGitignore (Some (String.append ".eslintcache" newline))))
       "*.tsbuildinfo" = 1.
Proof.
  split.
  - rewrite (gitignore_pattern_count
               (Some (String.append ".eslintcache" newline)) ".eslintcache").
    + reflexivity.
    + compute_done.
  - rewrite (gitignore_pattern_count
               (Some (String.append ".eslintcache" newline)) "*.tsbuildinfo").
    + reflexivity.
    + compute_done.
Defined.

(** ** What a run needs and what it leaves *)

(** X14. After a run that ends well the ignore list is there, it ends with
    a line feed, and both patterns are lines of it, whatever the directory
    held before. *)
Theorem run_leaves_ignore_patterns E p p1 :
  run E p = Ok p1 ->
  exists text,
    files p1 !! ".gitignore" = Some text
    /\ ends_with_LF text = true
    /\ forall pattern, pattern ∈ requiredIgnorePaths ->
         includes pattern (split_LF text) = true.
Proof.
  intros Hrun.
  destruct (run_Ok _ _ _ Hrun) as (m & fs1 & _ & _ & _ & _ & _ & Hf1).
  eexists. split; [exact (run_files_gitignore E p1 m fs1 Hf1)|]. split.
  - apply newGitignore_ends_with_LF.
  - intros pattern Hp. now apply newGitignore_includes.
Qed.

Lemma run_leaves_ignore_patterns_witness :
  exists text,
    files sampleProjectAfter !! ".gitignore" = Some text
    /\ ends_with_LF text = true
    /\ forall pattern, pattern ∈ requiredIgnorePaths ->
         includes pattern (split_LF text) = true.
Proof.
  apply (run_leaves_ignore_patterns sampleEnvironment sampleProject
           sampleProjectAfter).
  vm_compute. reflexivity.
Defined.

(** X15. After a run that ends well, where the legacy config may be
    removed, no [.eslintrc.json] with the default Next.js config is left. *)
Theorem run_leaves_no_default_config E p p1 text :
  run E p = Ok p1 -> writable E ".eslintrc.json" = true ->
  files p1 !! ".eslintrc.json" = Some text ->
  ~ paddedDefaultConfig text.
Proof.
  intros Hrun Hw Hf Hp.
  destruct (run_Ok _ _ _ Hrun) as (m & fs1 & _ & _ & _ & _ & _ & Hf1).
  rewrite Hf1 in Hf. clear Hf1.
  set (fs3 := <[".gitignore" := _]> _) in Hf.
  unfold pruneLegacyConfig in Hf. rewrite Hw in Hf.
  destruct (fs3 !! ".eslintrc.json") as [old|] eqn:Ho.
  - destruct (String.eqb_spec (trim old) nextDefaultConfig) as [Ht|Ht].
    + rewrite lookup_delete_eq in Hf. discriminate Hf.
    + rewrite Ho in Hf. injection Hf as ->. now apply Ht, trim_default.
  - rewrite Ho in Hf. discriminate Hf.
Qed.

Lemma run_leaves_no_default_config_witness :
  ~ paddedDefaultConfig "{ }".
Proof.
  destruct (run sampleEnvironment
              (Project (Some (Manifest None None None []))
                 {[ ".eslintrc.json" := "{ }" ]})) as [p1|e] eqn:Hrun;
    [|vm_compute in Hrun; discriminate Hrun].
  apply (run_leaves_no_default_config sampleEnvironment
           (Project (Some (Manifest None None None []))
              {[ ".eslintrc.json" := "{ }" ]}) p1 "{ }").
  - exact Hrun.
  - reflexivity.
  - vm_compute in Hrun. injection Hrun as <-. vm_compute. reflexivity.
Defined.

(** ** The older script *)

(** X16. Only the first caret of a version is removed: a version without
    caret is kept, and otherwise the text before the first caret is joined
    to the text after it, further carets included. *)
Theorem replaceCaret_first_only before after :
  has_caret before = false ->
  replaceCaret before = before
  /\ replaceCaret (String.append before (String "^"%char after)) =
     String.append before after.
Proof.
  intros H. induction before as [|c r IH]; simpl.
  - split; reflexivity.
  - simpl in H. apply orb_false_iff in H as [Hc Hr]. rewrite Hc.
    destruct (IH Hr) as [-> ->]. split; reflexivity.
Qed.

Lemma replaceCaret_first_only_witness :
  replaceCaret "^6.0.0" = "6.0.0" /\ replaceCaret ">=1.0.0 ^2" = ">=1.0.0 2".
Proof.
  split.
  - apply (replaceCaret_first_only "" "6.0.0"). reflexivity.
  - apply (replaceCaret_first_only ">=1.0.0 " "2"). reflexivity.
Defined.

Lemma forcedResolutions_Some existing dev r :
  forcedResolutions existing dev = Some r ->
  exists v1 v2 v3,
    obj_get "@typescript-eslint/eslint-plugin" dev = Some v1
    /\ obj_get "@typescript-eslint/parser" dev = Some v2
    /\ obj_get "eslint-plugin-react" dev = Some v3
    /\ r = spread
             [("@typescript-eslint/eslint-plugin", Some (replaceCaret v1));
              ("@typescript-eslint/parser", Some (replaceCaret v2));
              ("eslint-plugin-react", Some (replaceCaret v3))]
             (spread (or_empty existing) []).
Proof.
  unfold forcedResolutions, forcedVersion.
  destruct (obj_get "@typescript-eslint/eslint-plugin" dev) as [v1|];
    [|discriminate].
  destruct (obj_get "@typescript-eslint/parser" dev) as [v2|]; [|discriminate].
  destruct (obj_get "eslint-plugin-react" dev) as [v3|]; [|discriminate].
  intros [= <-]. exists v1, v2, v3. auto.
Qed.

(** X17. The older script stops with a [TypeError] exactly when one of the
    three packages is missing from the devDependencies (or there are no
    devDependencies): it cannot call [replace] on [undefined]. *)
Theorem legacy_TypeError_iff E p m :
  packageJson p = Some m ->
  runLegacy E p = inl LegacyTypeError <->
  exists name, name ∈ forcedPackages
               /\ obj_has name (or_empty (devDependencies m)) = false.
Proof.
  intros Hm. unfold runLegacy. rewrite Hm.
  destruct (devDependencies m) as [dev|]; cbn [or_empty].
  - unfold forcedResolutions, forcedVersion, forcedPackages, obj_has.
    destruct (obj_get "@typescript-eslint/eslint-plugin" dev) eqn:E1;
      [|split; [intros _; eexists; split; [left|now rewrite E1]|reflexivity]].
    destruct (obj_get "@typescript-eslint/parser" dev) eqn:E2;
      [|split; [intros _; eexists; split; [right; left|now rewrite E2]
               |reflexivity]].
    destruct (obj_get "eslint-plugin-react" dev) eqn:E3;
      [|split; [intros _; eexists; split; [right; right; left|now rewrite E3]
               |reflexivity]].
    split.
    + destruct (writable E "package.json"); cbn [negb]; [|discriminate].
      destruct (runInstall E _ _ _); discriminate.
    + intros (name & Hin & Hh). revert Hin Hh.
      rewrite !elem_of_cons, elem_of_nil.
      intros [->|[->|[->|[]]]]; rewrite ?E1, ?E2, ?E3; discriminate.
  - split; [|reflexivity]. intros _.
    exists "eslint-plugin-react". split; [|reflexivity].
    unfold forcedPackages. right. right. left.
Qed.

Lemma legacy_TypeError_iff_witness :
  runLegacy sampleEnvironment
    (Project (Some (Manifest None (Some [("eslint-plugin-react", "^7.32.2")])
                      None [])) ∅)
  = inl LegacyTypeError.
Proof.
  apply (legacy_TypeError_iff sampleEnvironment
           (Project (Some (Manifest None
                             (Some [("eslint-plugin-react", "^7.32.2")])
                             None [])) ∅)
           (Manifest None (Some [("eslint-plugin-react", "^7.32.2")]) None [])
           eq_refl).
  exists "@typescript-eslint/parser". split; [compute_done|reflexivity].
Defined.

(** X18. When the older script ends well, the manifest it wrote has the
    dependencies and devDependencies it read; each of the three resolutions
    is the version of the devDependencies without its first caret; and
    every other resolution of the project is kept. *)
Theorem legacy_forces_versions E p p1 m :
  packageJson p = Some m -> runLegacy E p = inr p1 ->
  exists m1 r,
    packageJson p1 = Some m1
    /\ dependencies m1 = dependencies m
    /\ devDependencies m1 = devDependencies m
    /\ rest m1 = rest m
    /\ resolutions m1 = Some r
    /\ (forall name, name ∈ forcedPackages ->
          exists version,
            obj_get name (or_empty (devDependencies m)) = Some version
            /\ obj_get name r = Some (Some (replaceCaret version)))
    /\ (forall name version, name ∉ forcedPackages ->
          (obj_get name r = Some (Some version) <->
           obj_get name (spread (or_empty (resolutions m)) [])
           = Some (Some version))).
Proof.
  intros Hm. unfold runLegacy. rewrite Hm.
  destruct (devDependencies m) as [dev|] eqn:Hdev; [|discriminate].
  destruct (forcedResolutions (resolutions m) dev) as [r0|] eqn:Hr;
    [|discriminate].
  destruct (writable E "package.json"); cbn [negb]; [|discriminate].
  destruct (runInstall E _ _ _) as [fs|]; [|discriminate].
  intros [= <-]. cbn [packageJson written dependencies devDependencies rest
    resolutions option_map].
  eexists _, _. split; [reflexivity|].
  repeat (split; [reflexivity|]).
  destruct (forcedResolutions_Some _ _ _ Hr) as (v1 & v2 & v3 & H1 & H2 & H3 & ->).
  set (forced := [("@typescript-eslint/eslint-plugin", Some (replaceCaret v1));
                  ("@typescript-eslint/parser", Some (replaceCaret v2));
                  ("eslint-plugin-react", Some (replaceCaret v3))]).
  assert (NoDup (keys forced)) as Hnd by compute_done.
  assert (wf_obj (spread forced (spread (or_empty (resolutions m)) []))) as Hwf
    by apply wf_obj_spread, wf_obj_spread, wf_obj_nil.
  split.
  - intros name. unfold forcedPackages. rewrite !elem_of_cons, elem_of_nil.
    cbn [or_empty]. unfold dropUndefined.
    intros [->|[->|[->|[]]]]; eexists; (split; [eassumption|]);
      rewrite obj_get_filter by apply Hwf;
      rewrite obj_get_spread_NoDup by assumption;
      cbn; (destruct (decide _) as [|Hn]; [reflexivity|]);
      exfalso; apply Hn; eauto.
  - intros name version Hname. unfold dropUndefined.
    rewrite obj_get_filter by apply Hwf.
    rewrite obj_get_spread_other by exact Hname.
    destruct (obj_get name _) as [[v|]|]; cbn [snd].
    + destruct (decide _) as [|Hn]; [reflexivity|].
      exfalso. apply Hn. eauto.
    + destruct (decide _) as [[? [=]]|]. split; discriminate.
    + split; discriminate.
Qed.

Lemma legacy_forces_versions_witness :
  exists m1 r,
    resolutions m1 = Some r
    /\ obj_get "eslint-plugin-react" r = Some (Some "7.32.2").
Proof.
  destruct (runLegacy sampleEnvironment
              (Project (Some (Manifest None (Some samplePeerDependencies)
                                None [])) ∅)) as [e|p1] eqn:Hrun;
    [vm_compute in Hrun; discriminate Hrun|].
  destruct (legacy_forces_versions sampleEnvironment
              (Project (Some (Manifest None (Some samplePeerDependencies)
                                None [])) ∅) p1
              (Manifest None (Some samplePeerDependencies) None [])
              eq_refl Hrun)
    as (m1 & r & _ & _ & _ & _ & Hr & Hf & _).
  exists m1, r. split; [exact Hr|].
  destruct (Hf "eslint-plugin-react") as (version & Hv & Hg); [compute_done|].
  cbn in Hv. injection Hv as <-. exact Hg.
Defined.

(** X19. The older script is idempotent on the resolutions: from the
    manifest it wrote, with the same devDependencies, it computes
    resolutions that are written as the same text. *)
Theorem legacy_resolutions_idempotent existing dev r :
  forcedResolutions existing dev = Some r ->
  exists r',
    forcedResolutions (Some (dropUndefined r)) dev = Some r'
    /\ dropUndefined r' = dropUndefined r.
Proof.
  intros Hr.
  destruct (forcedResolutions_Some _ _ _ Hr) as (v1 & v2 & v3 & H1 & H2 & H3 & ->).
  set (forced := [("@typescript-eslint/eslint-plugin", Some (replaceCaret v1));
                  ("@typescript-eslint/parser", Some (replaceCaret v2));
                  ("eslint-plugin-react", Some (replaceCaret v3))]).
  set (r := spread forced (spread (or_empty existing) [])).
  assert (NoDup (keys forced)) as Hnd by compute_done.
  assert (wf_obj r) as Hwf by apply wf_obj_spread, wf_obj_spread, wf_obj_nil.
  exists (spread forced (spread (dropUndefined r) [])). split.
  - unfold forcedResolutions, forcedVersion. rewrite H1, H2, H3. reflexivity.
  - rewrite spread_wf by now apply wf_obj_filter.
    rewrite dropUndefined_spread_fixed; [apply filter_twice|assumption|].
    intros k v Hin. left.
    assert (obj_get k r = Some v) as Hg.
    { unfold r. rewrite obj_get_spread_NoDup by assumption.
      now rewrite (In_obj_get k v forced Hnd Hin). }
    unfold dropUndefined. rewrite obj_get_filter by apply Hwf. rewrite Hg.
    destruct (decide _) as [|Hn]; [reflexivity|]. exfalso. apply Hn.
    cbn [snd]. unfold forced in Hin.
    revert Hin. rewrite !elem_of_cons, elem_of_nil.
    intros [[= _ ->]|[[= _ ->]|[[= _ ->]|[]]]]; eauto.
Qed.

Lemma legacy_resolutions_idempotent_witness :
  exists r',
    forcedResolutions
      (Some [("@typescript-eslint/eslint-plugin", Some "6.0.0");
             ("@typescript-eslint/parser", Some "6.0.0");
             ("eslint-plugin-react", Some "7.32.2")])
      samplePeerDependencies = Some r'
    /\ dropUndefined r' =
       [("@typescript-eslint/eslint-plugin", Some "6.0.0");
        ("@typescript-eslint/parser", Some "6.0.0");
        ("eslint-plugin-react", Some "7.32.2")].
Proof.
  apply (legacy_resolutions_idempotent None samplePeerDependencies
           [("@typescript-eslint/eslint-plugin", Some "6.0.0");
            ("@typescript-eslint/parser", Some "6.0.0");
            ("eslint-plugin-react", Some "7.32.2")]).
  reflexivity.
Defined.

(** ** The missing ignore list, over a whole run *)

(** C8. Missing ignore list: when the directory has no [.gitignore] before
    the run, and neither the package manager nor a template makes one,
    then after a run that ends well the file is there and its content is
    exactly the two patterns, one per line, with a single trailing line
    feed.  The absence is not a fault: the run ends well as soon as the
    manifest can be read and written, the package manager succeeds, the
    templates can be listed and the ignore list can be written. *)
Theorem missing_gitignore_created E p :
  files p !! ".gitignore" = None ->
  ".gitignore" ∉ templateFileNames E ->
  (forall cmd m fs fs',
     runInstall E cmd m fs = Some fs' ->
     fs' !! ".gitignore" = fs !! ".gitignore") ->
  let text := String.append ".eslintcache"
                (String.append newline (String.append "*.tsbuildinfo" newline)) in
  one_trailing_LF text
  /\ (forall p1, run E p = Ok p1 -> files p1 !! ".gitignore" = Some text)
  /\ (forall m,
        packageJson p = Some m ->
        writable E "package.json" = true ->
        writable E ".gitignore" = true ->
        templatesListed E = true ->
        is_Some
          (runInstall E
             (String.append
                (if negb (negb (existsSync (files p) "pnpm-lock.yaml"))
                 then "pnpm" else "yarn") " install")
             (written (updateManifest (peerDependencies E) (platform E)
                         (negb (existsSync (files p) "pnpm-lock.yaml")) m))
             (files p)) ->
        exists p1, run E p = Ok p1 /\ files p1 !! ".gitignore" = Some text).
Proof.
  intros Hf Ht Hkeep text.
  assert (Hrun : forall p1, run E p = Ok p1 ->
                   files p1 !! ".gitignore" = Some text).
  { intros p1 Hr. now apply (run_creates_gitignore E p p1). }
  split; [|split; [exact Hrun|]].
  - exists (String.append ".eslintcache" (String.append newline "*.tsbuildinfo")).
    split; reflexivity.
  - intros m Hm Hwp Hwg Hl [fs1 Hi].
    assert (exists p1, run E p = Ok p1) as [p1 Hr].
    { unfold run. rewrite Hm, Hwp. cbn [negb]. rewrite Hi.
      cbn [mbind outcome_bind]. rewrite Hl. cbn [negb].
      unfold updateGitignore. rewrite Hwg. cbn [mbind outcome_bind]. eauto. }
    exists p1. split; [exact Hr|now apply Hrun].
Qed.

Lemma missing_gitignore_created_witness :
  exists p1,
    run sampleEnvironment (Project (Some (Manifest None None None [])) ∅) = Ok p1
    /\ files p1 !! ".gitignore" =
       Some (String.append ".eslintcache"
               (String.append newline (String.append "*.tsbuildinfo" newline))).
Proof.
  destruct (missing_gitignore_created sampleEnvironment
              (Project (Some (Manifest None None None [])) ∅))
    as (_ & _ & Hex).
  - reflexivity.
  - compute_done.
  - intros cmd m fs fs' H. cbn in H. injection H as <-. reflexivity.
  - apply (Hex (Manifest None None None [])); try reflexivity.
    cbn. eauto.
Defined.
